(** * Quant analytics backend: ingestion, resampling, analytics, alerts

    A shallow embedding of the Python backend (src/backend/*.py) and the
    properties of its specification.

    Numbers.  Python floats are modelled by exact rationals [Q]; the
    non-finite results a float operation can produce (NaN, +inf, -inf) are
    explicit constructors of [fnum] where the code can produce them.
    Rounding is not modelled.

    Time.  A [datetime] is an integer count of microseconds; local time is
    taken to be UTC. *)

From Stdlib Require Import ZArith QArith Qminmax Qabs Lia Lqa Sorted.
From stdpp Require Import gmap strings list.

Local Open Scope Z_scope.

(* ===================================================================== *)
(** * Part I: the program                                                 *)
(* ===================================================================== *)

(** ** Float comparisons on the rational model *)

Module Num.

Definition ltb (x y : Q) : bool := negb (Qle_bool y x).
Definition leb (x y : Q) : bool := Qle_bool x y.

(** A sum of floats: left to right, starting from 0. *)
Definition sum (l : list Q) : Q := fold_left Qplus l 0%Q.

End Num.

(** ** Python values and slices *)

Module Py.

(** [l[start:]]: a negative start counts from the end; the start is
    clipped to the list. *)
Definition slice_from {A} (start : Z) (l : list A) : list A :=
  let n := Z.of_nat (length l) in
  let start := if start <? 0 then Z.max (start + n) 0 else Z.min start n in
  drop (Z.to_nat start) l.

(** The last [n] items of a list (all of it when it has fewer). *)
Definition keep_last {A} (n : nat) (l : list A) : list A :=
  drop (length l - n) l.

Definition lower_ascii (c : Ascii.ascii) : Ascii.ascii :=
  let n := Ascii.nat_of_ascii c in
  if (65 <=? n)%nat && (n <=? 90)%nat then Ascii.ascii_of_nat (n + 32) else c.

(** [str.lower], on ASCII letters. *)
Fixpoint lower (s : string) : string :=
  match s with
  | EmptyString => EmptyString
  | String c s' => String (lower_ascii c) (lower s')
  end.

(** A dynamically typed value: a keyword argument of [update_alert], an
    entry of an analytics snapshot.  [PObj] is any other object (a dict, a
    list, ...). *)
Inductive pyval :=
| PStr (s : string)
| PFloat (q : Q)
| PInt (z : Z)
| PBool (b : bool)
| PNone
| PDatetime (t : Z)
| PObj.

(** The value as a number in a comparison with a float; [None] where the
    comparison raises TypeError. *)
Definition as_number (v : pyval) : option Q :=
  match v with
  | PFloat q => Some q
  | PInt z => Some (inject_Z z)
  | PBool b => Some (if b then 1 else 0)%Q
  | _ => None
  end.

End Py.

(** ** backend/database.py: the rows of the two tables used below *)

Module Database.

(** [TickData] without its autoincrement id. *)
Record TickData := mkTickData {
  td_symbol : string;
  td_timestamp : Z;
  td_price : Q;
  td_quantity : Q
}.

(** [ResampledData] without its autoincrement id.  The table has an index
    on (symbol, timeframe, timestamp) but no uniqueness constraint, so it is
    a list of rows. *)
Record ResampledData := mkResampledData {
  rd_symbol : string;
  rd_timeframe : string;
  rd_timestamp : Z;
  rd_open : Q;
  rd_high : Q;
  rd_low : Q;
  rd_close : Q;
  rd_volume : Q
}.

End Database.

(** ** backend/resampler.py *)

Module Resampler.
Import Database.

(** A row of the tick frame built by [_get_tick_data]. *)
Record TickRow := mkTickRow {
  timestamp : Z;
  price : Q;
  quantity : Q
}.

(** A row of the frame returned by [_resample_to_ohlcv]. *)
Record OhlcvRow := mkOhlcvRow {
  bar_timestamp : Z;
  open : Q;
  high : Q;
  low : Q;
  close : Q;
  volume : Q
}.

(** [df.set_index('timestamp')] followed by [.resample(rule)]: pandas
    orders the rows by the index with a stable sort when it is not
    monotonic. *)
Fixpoint insert_by_timestamp (t : TickRow) (l : list TickRow) : list TickRow :=
  match l with
  | [] => [t]
  | u :: l' =>
      if (timestamp t <=? timestamp u)%Z then t :: l
      else u :: insert_by_timestamp t l'
  end.

Definition sort_index (df : list TickRow) : list TickRow :=
  foldr insert_by_timestamp [] df.

(** What pandas makes of a resampling rule.  [Tick]: a fixed frequency
    ('1s', '5min', ...) of [width] microseconds; its bins are the intervals
    [origin + k * width, origin + (k + 1) * width) counted from the midnight
    before the first row (the default [origin = 'start_day']), closed on the
    left and labelled by the left edge.  [Calendar]: any other frequency
    (month end, week, ...), given by the label of the bin that holds a time
    stamp in a frame whose first row is at [first]. *)
Inductive Offset :=
| Tick (width : positive)
| Calendar (label : Z -> Z -> Z).

Definition day : Z := 86400000000.

(** Label of the bin that holds [ts] in a frame whose first row is at
    [first]. *)
Definition bin_label (off : Offset) (first ts : Z) : Z :=
  match off with
  | Tick width =>
      let origin := day * (first / day) in
      origin + Z.pos width * ((ts - origin) / Z.pos width)
  | Calendar label => label first ts
  end.

(** The bins of a frequency are consecutive intervals: a later time stamp
    is not in an earlier bin.  It holds of every [Tick]. *)
Definition offset_ok (off : Offset) : Prop :=
  match off with
  | Tick _ => True
  | Calendar label => forall first a b, a <= b -> label first a <= label first b
  end.

(** [.ohlc()] and [.sum()] run over the sorted rows one bin at a time: the
    first row of a bin sets open, high, low and close, every later row
    updates high, low and close; the volume is the running sum from 0. *)
Definition new_bar (label : Z -> Z) (t : TickRow) : OhlcvRow :=
  {| bar_timestamp := label (timestamp t);
     open := price t; high := price t; low := price t; close := price t;
     volume := (0 + quantity t)%Q |}.

Definition add_to_bar (b : OhlcvRow) (t : TickRow) : OhlcvRow :=
  {| bar_timestamp := bar_timestamp b;
     open := open b;
     high := Qmax (high b) (price t);
     low := Qmin (low b) (price t);
     close := price t;
     volume := (volume b + quantity t)%Q |}.

(** The accumulator holds the bars built so far, newest first. *)
Definition ohlc_step (label : Z -> Z) (acc : list OhlcvRow) (t : TickRow)
    : list OhlcvRow :=
  match acc with
  | b :: rest =>
      if decide (bar_timestamp b = label (timestamp t))
      then add_to_bar b t :: rest
      else new_bar label t :: acc
  | [] => [new_bar label t]
  end.

(** The time stamp of the first row of the sorted frame. *)
Definition first_timestamp (df : list TickRow) : Z :=
  match sort_index df with
  | t :: _ => timestamp t
  | [] => 0
  end.

(** The bin labels of the frame [df] under the frequency [off]. *)
Definition bin_of (off : Offset) (df : list TickRow) : Z -> Z :=
  bin_label off (first_timestamp df).

Section WithPandas.

(** [pandas.tseries.frequencies.to_offset], which [.resample(rule)] applies
    to its rule string; [None] where pandas raises (ValueError: Invalid
    frequency).  What a string means depends on the pandas version: '1s' is
    one second, but '1m' and '5m' are no minute rules ('1min' is): older
    versions read them as month end, newer ones reject them. *)
Variable to_offset : string -> option Offset.

(** [_resample_to_ohlcv]; [None] when it raises.  Bins without a tick have
    NaN prices in the pandas result and are removed by [dropna]; they are
    never built here. *)
Definition _resample_to_ohlcv (df : list TickRow) (timeframe : string)
    : option (list OhlcvRow) :=
  match df with
  | [] => Some []
  | _ =>
      match to_offset timeframe with
      | Some off =>
          Some (reverse (fold_left (ohlc_step (bin_of off df)) (sort_index df) []))
      | None => None
      end
  end.

End WithPandas.

(** The rows of the sorted frame that fall into the bin labelled [start]. *)
Definition bucket_rows (label : Z -> Z) (df : list TickRow) (start : Z)
    : list TickRow :=
  filter (fun t => label (timestamp t) = start) (sort_index df).

(** [_save_resampled_data]: for every row of the frame, look the key
    (symbol, timeframe, timestamp) up and add a record only when no row has
    it.  The session autoflushes before each query, so a record added
    earlier in the same call is seen by the later look-ups.  A failing
    commit (rolled back by the code) is not modelled. *)
Definition has_key (symbol timeframe : string) (ts : Z) (r : ResampledData) : bool :=
  bool_decide (rd_symbol r = symbol) && bool_decide (rd_timeframe r = timeframe)
  && bool_decide (rd_timestamp r = ts).

Definition make_record (symbol timeframe : string) (row : OhlcvRow) : ResampledData :=
  {| rd_symbol := symbol; rd_timeframe := timeframe;
     rd_timestamp := bar_timestamp row;
     rd_open := open row; rd_high := high row; rd_low := low row;
     rd_close := close row; rd_volume := volume row |}.

Definition save_row (symbol timeframe : string)
    (table : list ResampledData) (row : OhlcvRow) : list ResampledData :=
  if existsb (has_key symbol timeframe (bar_timestamp row)) table
  then table
  else table ++ [make_record symbol timeframe row].

Definition _save_resampled_data (symbol timeframe : string)
    (ohlcv_df : list OhlcvRow) (table : list ResampledData) : list ResampledData :=
  fold_left (save_row symbol timeframe) ohlcv_df table.

(** [_get_tick_data]: the ticks of the symbol with
    [start_time <= timestamp < end_time], ordered by timestamp (ticks of one
    timestamp in insertion order), as rows of a frame. *)
Definition tick_row (t : TickData) : TickRow :=
  {| timestamp := td_timestamp t; price := td_price t; quantity := td_quantity t |}.

Definition _get_tick_data (ticks : list TickData) (symbol : string)
    (start_time end_time : Z) : list TickRow :=
  sort_index
    (tick_row <$> filter (fun t => td_symbol t = symbol /\
                                   start_time <= td_timestamp t /\
                                   td_timestamp t < end_time) ticks).

(** [_resample_symbol] at the time [now], over the tick table [ticks];
    [to_offset] is the rule resolution of pandas.  When the resampling
    raises, the handler logs the error and nothing is saved. *)
Definition _resample_symbol (to_offset : string -> option Offset) (now : Z)
    (ticks : list TickData) (symbol timeframe : string) (interval : Z)
    (table : list ResampledData) : list ResampledData :=
  let end_time := now in
  let start_time := end_time - interval * 2 in
  let tick_df := _get_tick_data ticks symbol start_time end_time in
  match tick_df with
  | [] => table
  | _ =>
      match _resample_to_ohlcv to_offset tick_df timeframe with
      | Some ohlcv_df => _save_resampled_data symbol timeframe ohlcv_df table
      | None => table
      end
  end.

(** The interval that [_resample_worker] passes with a timeframe; [None]:
    the timeframe is skipped. *)
Definition interval_of (timeframe : string) : option Z :=
  if String.eqb timeframe "1s" then Some 1000000
  else if String.eqb timeframe "1m" then Some 60000000
  else if String.eqb timeframe "5m" then Some 300000000
  else None.

(** [get_ohlcv]: the query orders the bars of (symbol, timeframe) by
    timestamp, newest first, and keeps [limit] of them; the frame lists them
    in reverse. *)
Fixpoint insert_desc (r : ResampledData) (l : list ResampledData)
    : list ResampledData :=
  match l with
  | [] => [r]
  | u :: l' =>
      if (rd_timestamp u <=? rd_timestamp r)%Z then r :: l
      else u :: insert_desc r l'
  end.

Definition sort_desc (l : list ResampledData) : list ResampledData :=
  foldr insert_desc [] l.

Definition newer_first (a b : ResampledData) : Prop :=
  rd_timestamp b <= rd_timestamp a.

Definition ohlcv_row (r : ResampledData) : OhlcvRow :=
  {| bar_timestamp := rd_timestamp r; open := rd_open r; high := rd_high r;
     low := rd_low r; close := rd_close r; volume := rd_volume r |}.

Definition get_ohlcv (table : list ResampledData) (symbol timeframe : string)
    (limit : nat) : list OhlcvRow :=
  let bars :=
    take limit
      (sort_desc (filter (fun r => rd_symbol r = symbol /\
                                   rd_timeframe r = timeframe) table)) in
  ohlcv_row <$> reverse bars.

(** What the specification says of one bar, given the rows of its bin in
    index order. *)
Definition bar_spec (rows : list TickRow) (b : OhlcvRow) : Prop :=
  (exists first_row, head rows = Some first_row /\ open b = price first_row) /\
  (exists last_row, last rows = Some last_row /\ close b = price last_row) /\
  (Forall (fun t => (price t <= high b)%Q) rows /\
   Exists (fun t => price t = high b) rows) /\
  (Forall (fun t => (low b <= price t)%Q) rows /\
   Exists (fun t => price t = low b) rows) /\
  volume b = Num.sum (quantity <$> rows).

(** The key of a stored bar. *)
Definition key_of (r : ResampledData) : string * string * Z :=
  (rd_symbol r, rd_timeframe r, rd_timestamp r).

(** Test data: four ticks inside the second that starts at 1700000000 s
    (2023-11-14 22:13:20); a rule resolution that knows seconds and minutes
    under their pandas names and rejects '1m' and '5m'; one that reads '1m'
    as month end, for time stamps in November 2023. *)
Definition one_second_ticks : list TickRow :=
  [ mkTickRow 1700000000100000 10 1; mkTickRow 1700000000300000 10 1;
    mkTickRow 1700000000600000 11 1; mkTickRow 1700000000900000 9 1 ].

Definition seconds_and_minutes (rule : string) : option Offset :=
  if String.eqb rule "1s" then Some (Tick 1000000)
  else if String.eqb rule "1min" then Some (Tick 60000000)
  else if String.eqb rule "5min" then Some (Tick 300000000)
  else None.

Definition month_end_november (rule : string) : option Offset :=
  if String.eqb rule "1s" then Some (Tick 1000000)
  else if String.eqb rule "1m" then Some (Calendar (fun _ _ => 1701302400000000))
  else None.

End Resampler.

(** ** config.py *)

Module Config.

Definition DEFAULT_WINDOW_SIZE : nat := 20.
Definition Z_SCORE_WINDOW : nat := 20.
Definition CORRELATION_WINDOW : nat := 50.
Definition ADF_SIGNIFICANCE : Q := 5 # 100.

End Config.

(** ** backend/analytics.py *)

Module Analytics.

(** A float: a finite value, NaN or an infinity.  Signed zeros are not
    distinguished. *)
Inductive fnum :=
| Fin (q : Q)
| NaN
| PosInf
| NegInf.

Definition fneg (a : fnum) : fnum :=
  match a with
  | Fin q => Fin (- q)
  | NaN => NaN
  | PosInf => NegInf
  | NegInf => PosInf
  end.

Definition fsub (a b : fnum) : fnum :=
  match a, b with
  | NaN, _ | _, NaN => NaN
  | Fin x, Fin y => Fin (x - y)
  | Fin _, PosInf => NegInf
  | Fin _, NegInf => PosInf
  | PosInf, PosInf | NegInf, NegInf => NaN
  | PosInf, _ => PosInf
  | NegInf, _ => NegInf
  end.

(** Array division: a zero divisor gives NaN for a zero dividend and an
    infinity otherwise; it does not raise. *)
Definition fdiv (a b : fnum) : fnum :=
  match a, b with
  | NaN, _ | _, NaN => NaN
  | Fin x, Fin y =>
      if Qeq_bool y 0 then
        if Qeq_bool x 0 then NaN
        else if Num.ltb 0 x then PosInf else NegInf
      else Fin (x / y)
  | Fin _, _ => Fin 0
  | _, PosInf | _, NegInf => NaN
  | PosInf, Fin y => if Num.ltb y 0 then NegInf else PosInf
  | NegInf, Fin y => if Num.ltb y 0 then PosInf else NegInf
  end.

(** [Series.fillna(0)]. *)
Definition fillna0 (a : fnum) : fnum :=
  match a with
  | NaN => Fin 0
  | _ => a
  end.

(** A Series: its rows (label, value) in order.  Labels are timestamps.
    The functions below read a label as a key: they model Series whose
    index has no repeated label, as the bar frames have. *)
Definition index {V} (s : list (Z * V)) : list Z := fst <$> s.
Definition values {V} (s : list (Z * V)) : list V := snd <$> s.

Fixpoint series_get {V} (s : list (Z * V)) (t : Z) : option V :=
  match s with
  | [] => None
  | (u, v) :: s' => if decide (u = t) then Some v else series_get s' t
  end.

(** [self.intersection(other)] with the default [sort=False]: the labels of
    [self] that [other] has, in the order of [self]. *)
Definition index_intersection (self other : list Z) : list Z :=
  filter (fun t => t ∈ other) self.

(** [series.loc[idx]]: the rows of the labels [idx], in the order of [idx]. *)
Definition loc {V} (s : list (Z * V)) (idx : list Z) : list (Z * V) :=
  omap (fun t => (fun v => (t, v)) <$> series_get s t) idx.

(** [hedge_ratio * series]. *)
Definition scale (k : Q) (s : list (Z * Q)) : list (Z * Q) :=
  (fun r => (r.1, (k * r.2)%Q)) <$> s.

(** [a - b] for two Series that carry the same index. *)
Definition series_sub (a b : list (Z * Q)) : list (Z * Q) :=
  zip_with (fun r r' => (r.1, (r.2 - r'.2)%Q)) a b.

(** [compute_spread]. *)
Definition compute_spread (y_series x_series : list (Z * Q)) (hedge_ratio : Q)
    : list (Z * Q) :=
  let common_idx := index_intersection (index y_series) (index x_series) in
  series_sub (loc y_series common_idx) (scale hedge_ratio (loc x_series common_idx)).

(** The spread as the specification words it: defined at the labels both
    Series have, with value A[t] - hedge_ratio * B[t]. *)
Definition spread_at (a b : list (Z * Q)) (hedge_ratio : Q) (t : Z) : option Q :=
  match series_get a t, series_get b t with
  | Some va, Some vb => Some (va - hedge_ratio * vb)%Q
  | _, _ => None
  end.

(** *** Rolling statistics *)

(** [series.rolling(window=window)]: [min_periods] is [window], so the
    window that ends at position [i] exists from position [window - 1] on. *)
Definition window_at (vals : list Q) (window i : nat) : option (list Q) :=
  if (window <=? i + 1)%nat
  then Some (take window (drop (i + 1 - window) vals))
  else None.

Definition rolling (f : list Q -> fnum) (window : nat) (vals : list Q) : list fnum :=
  imap (fun i _ => match window_at vals window i with
                   | Some w => f w
                   | None => NaN
                   end) vals.

Definition mean (w : list Q) : Q :=
  (Num.sum w / inject_Z (Z.of_nat (length w)))%Q.

(** Sample variance ([ddof = 1]). *)
Definition var (w : list Q) : Q :=
  (Num.sum ((fun x => (x - mean w) * (x - mean w)) <$> w)
   / inject_Z (Z.of_nat (length w) - 1))%Q.

Section WithRolling.

(** The kernels of [.rolling(window).mean()] and [.rolling(window).std()]:
    the value for one window.  pandas computes them in floating point, from
    a running sum and a running sum of squared deviations, so the result is
    close to the mean and to the sample standard deviation of the window
    without having to equal it; a deviation too small for a float comes out
    as 0. *)
Variable roll_mean : list Q -> Q.
Variable roll_std : list Q -> Q.

(** [.mean()]: NaN for a window without observations. *)
Definition rolling_mean (window : nat) (vals : list Q) : list fnum :=
  rolling (fun w => if (length w =? 0)%nat then NaN else Fin (roll_mean w))
          window vals.

(** [.std()]: NaN unless the window has more observations than [ddof]. *)
Definition rolling_std (window : nat) (vals : list Q) : list fnum :=
  rolling (fun w => if (length w <=? 1)%nat then NaN else Fin (roll_std w))
          window vals.

(** [compute_z_score]; [window = None] takes [config.Z_SCORE_WINDOW]. *)
Definition compute_z_score (series : list (Z * Q)) (window : option nat)
    : list (Z * fnum) :=
  let window := default Config.Z_SCORE_WINDOW window in
  if (length series <? window)%nat then
    (fun r => (r.1, Fin 0)) <$> series
  else
    let vals := values series in
    let z_score :=
      zip_with fdiv (zip_with fsub (Fin <$> vals) (rolling_mean window vals))
                    (rolling_std window vals) in
    zip (index series) (fillna0 <$> z_score).

End WithRolling.

(** A square root on the rationals that rounds up to the next multiple of
    1 / denominator; exact on squares such as 4 and 1/4.  It stands for the
    square root of the float library in the examples. *)
Definition Qsqrt_up (v : Q) : Q :=
  Z.sqrt_up (Qnum v * Zpos (Qden v)) # Qden v.

(** Test data.  The exact kernels; a standard deviation kernel in which,
    as in floating point, a squared deviation of at most half the smallest
    positive float (2^-1074) is 0; a flat Series; a Series with the two
    values 0 and 1e-200. *)
Definition exact_std (w : list Q) : Q := Qsqrt_up (var w).

Definition underflow (q : Q) : Q :=
  if Num.leb (Qabs q) (1 # 2 ^ 1075) then 0%Q else q.

Definition underflow_std (w : list Q) : Q :=
  Qsqrt_up (Num.sum ((fun x => underflow ((x - mean w) * (x - mean w))) <$> w)
            / inject_Z (Z.of_nat (length w) - 1)).

Definition flat_series : list (Z * Q) :=
  [ (0, 5%Q); (1000000, 5%Q); (2000000, 5%Q); (3000000, 5%Q) ].

Definition tiny_series : list (Z * Q) :=
  [ (0, 0%Q); (1000000, 1 # 10 ^ 200) ].

(** *** Stationarity test *)

(** What [adfuller] returns, as far as the code reads it: [result[0]],
    [result[1]] and [result[4]]. *)
Record AdfOutput := mkAdfOutput {
  adf_statistic : Q;
  adf_pvalue : Q;
  adf_critical : gmap string Q
}.

Record AdfResult := mkAdfResult {
  statistic : Q;
  pvalue : Q;
  critical_values : gmap string Q;
  is_stationary : bool
}.

(** A computation that may call the external test; the continuation takes
    [None] when the call raises. *)
Inductive Ext (A : Type) :=
| Ret (a : A)
| CallAdfuller (x : list fnum) (k : option AdfOutput -> Ext A).
Arguments Ret {A} a.
Arguments CallAdfuller {A} x k.

Fixpoint run {A} (adfuller : list fnum -> option AdfOutput) (p : Ext A) : A :=
  match p with
  | Ret a => a
  | CallAdfuller x k => run adfuller (k (adfuller x))
  end.

(** Number of calls of the external test in a run. *)
Fixpoint calls {A} (adfuller : list fnum -> option AdfOutput) (p : Ext A) : nat :=
  match p with
  | Ret _ => 0
  | CallAdfuller x k => S (calls adfuller (k (adfuller x)))
  end.

Definition is_nan (a : fnum) : bool :=
  match a with
  | NaN => true
  | _ => false
  end.

(** [series.dropna()], values only. *)
Definition dropna (s : list (Z * fnum)) : list fnum :=
  List.filter (fun a => negb (is_nan a)) (values s).

Definition degenerate : AdfResult :=
  {| statistic := 0; pvalue := 1; critical_values := ∅; is_stationary := false |}.

(** [perform_adf_test]. *)
Definition perform_adf_test (series : list (Z * fnum)) : Ext AdfResult :=
  if (length series <? 10)%nat then Ret degenerate
  else
    CallAdfuller (dropna series) (fun result =>
      match result with
      | Some out =>
          let is_stationary := Num.ltb (adf_pvalue out) Config.ADF_SIGNIFICANCE in
          Ret {| statistic := adf_statistic out;
                 pvalue := adf_pvalue out;
                 critical_values := adf_critical out;
                 is_stationary := is_stationary |}
      | None => Ret degenerate
      end).

(** *** Hedge ratio *)

(** What the code reads off a fitted regression model: [coef_[0][0]],
    [intercept_[0]] and [predict(x)]. *)
Record Fit := mkFit {
  coef : Q;
  fit_intercept : Q;
  predictions : list Q
}.

(** [self.regression_models.get(method, LinearRegression())]. *)
Definition model_name (method : string) : string :=
  if bool_decide (method ∈ [ "ols"; "huber"; "theil_sen" ]%string)
  then method else "ols"%string.

Definition sum_sq_diff (a b : list Q) : Q :=
  Num.sum ((fun p => (p.1 - p.2) * (p.1 - p.2))%Q <$> zip a b).

Definition sum_sq_dev (y : list Q) : Q :=
  Num.sum ((fun v => (v - mean y) * (v - mean y))%Q <$> y).

(** *** Rolling correlation: the reduction of a pair of windows *)

Definition rolling2 (f : list Q -> list Q -> fnum) (window : nat)
    (xs ys : list Q) : list fnum :=
  imap (fun i _ => match window_at xs window i, window_at ys window i with
                   | Some wx, Some wy => f wx wy
                   | _, _ => NaN
                   end) xs.

(** The row [AnalyticsResult] of database.py, without its id. *)
Record AnalyticsResult := mkAnalyticsResult {
  ar_symbol_pair : string;
  ar_timestamp : Z;
  ar_timeframe : string;
  ar_hedge_ratio : Q;
  ar_spread : Q;
  ar_z_score : fnum;
  ar_correlation : fnum;
  ar_adf_statistic : Q;
  ar_adf_pvalue : Q;
  ar_spread_mean : fnum;
  ar_spread_std : fnum
}.

(** The dict returned by [compute_pair_analytics]. *)
Record PairAnalytics := mkPairAnalytics {
  pa_hedge_ratio : Q;
  pa_r_squared : Q;
  pa_intercept : Q;
  pa_spread : list (Z * Q);
  pa_z_score : list (Z * fnum);
  pa_correlation : list (Z * fnum);
  pa_adf_test : AdfResult;
  pa_spread_mean : fnum;
  pa_spread_std : fnum;
  pa_spread_current : Q;
  pa_current_z_score : fnum;
  pa_current_correlation : fnum
}.

(** [series.iloc[-1] if len(series) > 0 else 0]. *)
Definition last_value {V} (zero : V) (s : list (Z * V)) : V :=
  match last s with
  | Some r => r.2
  | None => zero
  end.

Section WithLibraries.

(** The library functions the engine calls: the square root, the kernels
    of the rolling mean and standard deviation, the correlation of two
    windows as the rolling kernel computes it, the fit of the regression
    model of a name to (x, y) ([None] when anything from [fit] to [predict]
    raises), and the unit-root test. *)
Variable sqrtQ : Q -> Q.
Variable roll_mean : list Q -> Q.
Variable roll_std : list Q -> Q.
Variable corr : list Q -> list Q -> fnum.
Variable fit : string -> list Q -> list Q -> option Fit.
Variable adfuller : list fnum -> option AdfOutput.

(** [compute_hedge_ratio]: (hedge_ratio, r_squared, intercept). *)
Definition compute_hedge_ratio (y_series x_series : list (Z * Q))
    (method : string) : Q * Q * Q :=
  if (length y_series <? 2)%nat || (length x_series <? 2)%nat then (0, 0, 0)%Q
  else
    let common_idx := index_intersection (index y_series) (index x_series) in
    if (length common_idx <? 2)%nat then (0, 0, 0)%Q
    else
      let y := values (loc y_series common_idx) in
      let x := values (loc x_series common_idx) in
      match fit (model_name method) x y with
      | Some model =>
          let ss_res := sum_sq_diff y (predictions model) in
          let ss_tot := sum_sq_dev y in
          let r_squared :=
            if negb (Qeq_bool ss_tot 0) then (1 - ss_res / ss_tot)%Q else 0%Q in
          (coef model, r_squared, fit_intercept model)
      | None => (0, 0, 0)%Q
      end.

(** [compute_correlation]; [window = None] takes
    [config.CORRELATION_WINDOW]. *)
Definition compute_correlation (series1 series2 : list (Z * Q))
    (window : option nat) : list (Z * fnum) :=
  let window := default Config.CORRELATION_WINDOW window in
  let common_idx := index_intersection (index series1) (index series2) in
  if (length common_idx <? window)%nat then
    (fun t => (t, Fin 0)) <$> common_idx
  else
    let s1 := loc series1 common_idx in
    let s2 := loc series2 common_idx in
    let rolling_corr := rolling2 corr window (values s1) (values s2) in
    zip (index s1) (fillna0 <$> rolling_corr).

(** [Series.mean()] and [Series.std()] of the whole spread. *)
Definition series_mean (vals : list Q) : fnum :=
  if (length vals =? 0)%nat then NaN else Fin (mean vals).

Definition series_std (vals : list Q) : fnum :=
  if (length vals <=? 1)%nat then NaN else Fin (sqrtQ (var vals)).

(** [compute_pair_analytics] at the time [now], with the table of analytics
    rows: the result ([None] for the empty dict) and the table after the
    call.  A failing database write is not modelled. *)
Definition compute_pair_analytics (now : Z)
    (df1 df2 : list Resampler.OhlcvRow) (symbol1 symbol2 timeframe : string)
    (window_size : option nat) (regression_method : string)
    (table : list AnalyticsResult)
    : option PairAnalytics * list AnalyticsResult :=
  match df1, df2 with
  | [], _ | _, [] => (None, table)
  | _, _ =>
      let window_size := default Config.DEFAULT_WINDOW_SIZE window_size in
      let prices1 :=
        (fun r => (Resampler.bar_timestamp r, Resampler.close r)) <$> df1 in
      let prices2 :=
        (fun r => (Resampler.bar_timestamp r, Resampler.close r)) <$> df2 in
      let hri := compute_hedge_ratio prices1 prices2 regression_method in
      let hedge_ratio := hri.1.1 in
      let spread := compute_spread prices1 prices2 hedge_ratio in
      let z_score :=
        compute_z_score roll_mean roll_std spread (Some window_size) in
      let correlation := compute_correlation prices1 prices2 (Some window_size) in
      let adf_result :=
        run adfuller (perform_adf_test ((fun r => (r.1, Fin r.2)) <$> spread)) in
      let result :=
        {| pa_hedge_ratio := hedge_ratio;
           pa_r_squared := hri.1.2;
           pa_intercept := hri.2;
           pa_spread := spread;
           pa_z_score := z_score;
           pa_correlation := correlation;
           pa_adf_test := adf_result;
           pa_spread_mean := series_mean (values spread);
           pa_spread_std := series_std (values spread);
           pa_spread_current := last_value 0%Q spread;
           pa_current_z_score := last_value (Fin 0) z_score;
           pa_current_correlation := last_value (Fin 0) correlation |} in
      let row :=
        {| ar_symbol_pair := (symbol1 ++ "_" ++ symbol2)%string;
           ar_timestamp := now;
           ar_timeframe := timeframe;
           ar_hedge_ratio := hedge_ratio;
           ar_spread := pa_spread_current result;
           ar_z_score := pa_current_z_score result;
           ar_correlation := pa_current_correlation result;
           ar_adf_statistic := statistic adf_result;
           ar_adf_pvalue := pvalue adf_result;
           ar_spread_mean := pa_spread_mean result;
           ar_spread_std := pa_spread_std result |} in
      (Some result, table ++ [row])
  end.

End WithLibraries.

End Analytics.

(** ** backend/websocket_client.py *)

Module WebsocketClient.
Import Database.

(** A trade event after [json.loads]: the fields s, p, q and T. *)
Record Trade := mkTrade {
  msg_s : string;
  msg_p : Q;
  msg_q : Q;
  msg_T : Z
}.

(** The tick dict built by [_on_message]. *)
Record Tick := mkTick {
  tick_symbol : string;
  tick_timestamp : Z;
  tick_price : Q;
  tick_quantity : Q
}.

(** [deque(maxlen=1000)]: appending to a full deque discards its oldest
    item. *)
Definition maxlen : nat := 1000.

Definition deque_append {A} (d : list A) (x : A) : list A :=
  if (length d <? maxlen)%nat then d ++ [x] else drop 1 d ++ [x].

(** The client state: the per-symbol buffers and the tick table of the
    database.  Redis is taken as unavailable ([redis_client = None]);
    database writes succeed. *)
Record Client := mkClient {
  tick_buffer : gmap string (list Tick);
  tick_table : list TickData
}.

(** [__init__]: one empty deque per lower-cased symbol. *)
Definition init (symbols : list string) : Client :=
  {| tick_buffer := list_to_map ((fun s => (Py.lower s, [])) <$> symbols);
     tick_table := [] |}.

(** [_save_to_db]. *)
Definition _save_to_db (symbol : string) (tick : Tick) (table : list TickData)
    : list TickData :=
  table ++ [ mkTickData symbol (tick_timestamp tick) (tick_price tick)
                        (tick_quantity tick) ].

(** [datetime.fromtimestamp(T / 1000)] for the integer [T] of a trade
    event, with local time taken to be UTC: the datetime, or [None] where the
    call raises because the year would be outside 1 .. 9999.  The rounding
    of the quotient [T / 1000] to a float is not modelled. *)
Definition min_T : Z := -62135596800000.
Definition max_T : Z := 253402300799999.

Definition fromtimestamp (T : Z) : option Z :=
  if (min_T <=? T) && (T <=? max_T) then Some (T * 1000) else None.

(** The time stamps that every platform converts, and exactly: the years
    1970 to 2038. *)
Definition in_range (T : Z) : Prop := 0 <= T < 2147483648000.

(** [_on_message], for a well-formed trade event.  The handler catches
    every exception and logs it: when the conversion of the time stamp
    raises, the message is dropped before anything is stored; for a symbol
    without a buffer, [self.tick_buffer[symbol]] raises KeyError after the
    tick has been built. *)
Definition _on_message (c : Client) (m : Trade) : Client :=
  let symbol := Py.lower (msg_s m) in
  match fromtimestamp (msg_T m) with
  | None => c
  | Some timestamp =>
      let tick := {| tick_symbol := symbol; tick_timestamp := timestamp;
                     tick_price := msg_p m; tick_quantity := msg_q m |} in
      let buffer :=
        match tick_buffer c !! symbol with
        | Some d => <[symbol := deque_append d tick]> (tick_buffer c)
        | None => tick_buffer c
        end in
      match buffer !! symbol with
      | Some d =>
          if (length d mod 10 =? 0)%nat
          then {| tick_buffer := buffer;
                  tick_table := _save_to_db symbol tick (tick_table c) |}
          else {| tick_buffer := buffer; tick_table := tick_table c |}
      | None => {| tick_buffer := buffer; tick_table := tick_table c |}
      end
  end.

(** [get_recent_ticks]. *)
Definition get_recent_ticks (c : Client) (symbol : string) (limit : Z) : list Tick :=
  let symbol := Py.lower symbol in
  match tick_buffer c !! symbol with
  | None => []
  | Some d => Py.slice_from (- limit) d
  end.

(** [get_latest_price]. *)
Definition get_latest_price (c : Client) (symbol : string) : Q :=
  let symbol := Py.lower symbol in
  match tick_buffer c !! symbol with
  | Some d =>
      match last d with
      | Some tick => tick_price tick
      | None => 0
      end
  | None => 0
  end.

(** The tick that [_on_message] builds from a trade event whose time stamp
    converts. *)
Definition tick_of (m : Trade) : Tick :=
  {| tick_symbol := Py.lower (msg_s m); tick_timestamp := msg_T m * 1000;
     tick_price := msg_p m; tick_quantity := msg_q m |}.

(** The row that [_save_to_db] writes for a trade event. *)
Definition row_of (m : Trade) : TickData :=
  mkTickData (Py.lower (msg_s m)) (msg_T m * 1000) (msg_p m) (msg_q m).

(** Test data: the [n]-th trade of a run on one symbol, priced [n]. *)
Definition trade (symbol : string) (n : nat) : Trade :=
  {| msg_s := symbol; msg_p := inject_Z (Z.of_nat n); msg_q := 1;
     msg_T := 1700000000000 + Z.of_nat n |}.

Definition feed (symbol : string) (first count : nat) (c : Client) : Client :=
  fold_left _on_message (trade symbol <$> seq first count) c.

End WebsocketClient.

(** ** backend/alerts.py *)

Module Alerts.
Import Py.

Record Alert := mkAlert {
  name : string;
  condition : string;
  metric : string;
  threshold : Q;
  symbol_pair : string;
  enabled : bool;
  triggered_count : Z;
  last_triggered : option Z
}.

(** [Alert.__init__]. *)
Definition new_alert (name condition metric : string) (threshold : Q)
    (symbol_pair : string) (enabled : bool) : Alert :=
  {| name := name; condition := condition; metric := metric;
     threshold := threshold; symbol_pair := symbol_pair; enabled := enabled;
     triggered_count := 0; last_triggered := None |}.

(** [Alert.check], for a float value. *)
Definition check (a : Alert) (value : Q) : bool :=
  if negb (enabled a) then false
  else if String.eqb (condition a) "greater" then Num.ltb (threshold a) value
  else if String.eqb (condition a) "less" then Num.ltb value (threshold a)
  else if String.eqb (condition a) "equal"
       then Num.ltb (Qabs (value - threshold a)) (1 # 1000)
  else if String.eqb (condition a) "greater_equal" then Num.leb (threshold a) value
  else if String.eqb (condition a) "less_equal" then Num.leb value (threshold a)
  else false.

Definition known_condition (c : string) : bool :=
  String.eqb c "greater" || String.eqb c "less" || String.eqb c "equal"
  || String.eqb c "greater_equal" || String.eqb c "less_equal".

(** An int converts to a float only below this magnitude, the first that
    rounds to 2^1024; from there on the conversion raises OverflowError.
    The comparisons of an int with a float do not convert it; the
    subtraction [value - self.threshold] does. *)
Definition float_overflow : Z := 2 ^ 1024 - 2 ^ 970.

Definition overflows (value : pyval) : bool :=
  match value with
  | PInt z => (float_overflow <=? Z.abs z)%Z
  | _ => false
  end.

(** [Alert.check] for any value ([None]: it raises).  Comparing a value
    that is not a number with the threshold raises TypeError; for the
    condition 'equal', subtracting the threshold from an int too large for
    a float raises OverflowError. *)
Definition check_py (a : Alert) (value : pyval) : option bool :=
  match as_number value with
  | Some q =>
      if enabled a && String.eqb (condition a) "equal" && overflows value
      then None
      else Some (check a q)
  | None =>
      if negb (enabled a) then Some false
      else if known_condition (condition a) then None
      else Some false
  end.

(** [Alert.trigger]; [now] is the value of [datetime.now()]. *)
Definition trigger (now : Z) (a : Alert) : Alert :=
  {| name := name a; condition := condition a; metric := metric a;
     threshold := threshold a; symbol_pair := symbol_pair a;
     enabled := enabled a;
     triggered_count := triggered_count a + 1;
     last_triggered := Some now |}.

(** The event dict appended to the history. *)
Record AlertEvent := mkAlertEvent {
  ev_timestamp : Z;
  ev_alert_name : string;
  ev_metric : string;
  ev_value : pyval;
  ev_threshold : Q;
  ev_condition : string;
  ev_symbol_pair : string
}.

(** The manager.  [self.alerts] is a list of references to Alert objects:
    [heap] holds the objects by address, so that an object listed twice is
    one object.  Callbacks are known by their identity; [invoked] logs the
    calls [callback(event)] in order, and [clock] counts the readings of
    [datetime.now()].  A callback is taken not to touch the manager. *)
Record AlertManager := mkAlertManager {
  heap : gmap nat Alert;
  alerts : list nat;
  alert_history : list AlertEvent;
  callbacks : list nat;
  max_history : nat;
  invoked : list (nat * AlertEvent);
  clock : nat
}.

(** [get_alert]: the first listed alert with the name. *)
Fixpoint find_alert (h : gmap nat Alert) (alert_name : string) (ls : list nat)
    : option (nat * Alert) :=
  match ls with
  | [] => None
  | l :: ls' =>
      match h !! l with
      | Some a => if String.eqb (name a) alert_name then Some (l, a)
                  else find_alert h alert_name ls'
      | None => find_alert h alert_name ls'
      end
  end.

Definition get_alert (m : AlertManager) (alert_name : string) : option (nat * Alert) :=
  find_alert (heap m) alert_name (alerts m).

(** The attributes set by [__init__]. *)
Definition data_attrs : list string :=
  [ "name"; "condition"; "metric"; "threshold"; "symbol_pair"; "enabled";
    "triggered_count"; "last_triggered" ]%string.

Definition is_data_attr (key : string) : bool := bool_decide (key ∈ data_attrs).

(** Names that can be attributes of the class: the three methods, and the
    special names, which start with two underscores.  A typed request names
    none of them. *)
Definition is_class_attr (key : string) : bool :=
  bool_decide (key ∈ [ "check"; "trigger"; "to_dict" ]%string)
  || String.prefix "__" key.

(** [setattr(alert, key, value)] for a data attribute and a value of the
    type that the attribute holds after [__init__]; [None] for any other
    assignment, which the typed record cannot hold.  The module
    [AlertObjects] below has [setattr] for every name and value. *)
Definition setattr (a : Alert) (key : string) (value : pyval) : option Alert :=
  match key, value with
  | "name"%string, PStr s =>
      Some {| name := s; condition := condition a; metric := metric a;
              threshold := threshold a; symbol_pair := symbol_pair a;
              enabled := enabled a; triggered_count := triggered_count a;
              last_triggered := last_triggered a |}
  | "condition"%string, PStr s =>
      Some {| name := name a; condition := s; metric := metric a;
              threshold := threshold a; symbol_pair := symbol_pair a;
              enabled := enabled a; triggered_count := triggered_count a;
              last_triggered := last_triggered a |}
  | "metric"%string, PStr s =>
      Some {| name := name a; condition := condition a; metric := s;
              threshold := threshold a; symbol_pair := symbol_pair a;
              enabled := enabled a; triggered_count := triggered_count a;
              last_triggered := last_triggered a |}
  | "threshold"%string, PFloat q =>
      Some {| name := name a; condition := condition a; metric := metric a;
              threshold := q; symbol_pair := symbol_pair a;
              enabled := enabled a; triggered_count := triggered_count a;
              last_triggered := last_triggered a |}
  | "symbol_pair"%string, PStr s =>
      Some {| name := name a; condition := condition a; metric := metric a;
              threshold := threshold a; symbol_pair := s;
              enabled := enabled a; triggered_count := triggered_count a;
              last_triggered := last_triggered a |}
  | "enabled"%string, PBool b =>
      Some {| name := name a; condition := condition a; metric := metric a;
              threshold := threshold a; symbol_pair := symbol_pair a;
              enabled := b; triggered_count := triggered_count a;
              last_triggered := last_triggered a |}
  | "triggered_count"%string, PInt z =>
      Some {| name := name a; condition := condition a; metric := metric a;
              threshold := threshold a; symbol_pair := symbol_pair a;
              enabled := enabled a; triggered_count := z;
              last_triggered := last_triggered a |}
  | "last_triggered"%string, PNone =>
      Some {| name := name a; condition := condition a; metric := metric a;
              threshold := threshold a; symbol_pair := symbol_pair a;
              enabled := enabled a; triggered_count := triggered_count a;
              last_triggered := None |}
  | "last_triggered"%string, PDatetime t =>
      Some {| name := name a; condition := condition a; metric := metric a;
              threshold := threshold a; symbol_pair := symbol_pair a;
              enabled := enabled a; triggered_count := triggered_count a;
              last_triggered := Some t |}
  | _, _ => None
  end.

(** [getattr(alert, key)] for a data attribute. *)
Definition getattr (a : Alert) (key : string) : option pyval :=
  match key with
  | "name"%string => Some (PStr (name a))
  | "condition"%string => Some (PStr (condition a))
  | "metric"%string => Some (PStr (metric a))
  | "threshold"%string => Some (PFloat (threshold a))
  | "symbol_pair"%string => Some (PStr (symbol_pair a))
  | "enabled"%string => Some (PBool (enabled a))
  | "triggered_count"%string => Some (PInt (triggered_count a))
  | "last_triggered"%string =>
      Some (match last_triggered a with
            | Some t => PDatetime t
            | None => PNone
            end)
  | _ => None
  end.

(** The loop of [update_alert] over [kwargs.items()], for a typed request:
    a key for which [hasattr] fails is passed over.  [None]: the request is
    not a typed one (it names a method or a special name, or gives a value
    of another type). *)
Fixpoint apply_kwargs (a : Alert) (kwargs : list (string * pyval)) : option Alert :=
  match kwargs with
  | [] => Some a
  | (key, value) :: rest =>
      if is_data_attr key then
        match setattr a key value with
        | Some a' => apply_kwargs a' rest
        | None => None
        end
      else if is_class_attr key then None
      else apply_kwargs a rest
  end.

(** A keyword that is the name of a parameter of [update_alert] cannot be
    passed on in [kwargs]: the call raises TypeError before it does
    anything. *)
Definition names_parameter (kwargs : list (string * pyval)) : bool :=
  existsb (fun kv => bool_decide (kv.1 ∈ [ "self"; "alert_name" ]%string)) kwargs.

(** [update_alert] on the typed records, for a typed request ([None] for
    any other); [AlertObjects.update_alert] is [update_alert] for every
    request. *)
Definition update_alert (m : AlertManager) (alert_name : string)
    (kwargs : list (string * pyval)) : option AlertManager :=
  if names_parameter kwargs then None
  else
    match get_alert m alert_name with
    | None => Some m
    | Some (l, a) =>
        match apply_kwargs a kwargs with
        | Some a' =>
            Some {| heap := <[l := a']> (heap m); alerts := alerts m;
                    alert_history := alert_history m; callbacks := callbacks m;
                    max_history := max_history m; invoked := invoked m;
                    clock := clock m |}
        | None => None
        end
    end.

(** The value a request assigns to [key], if any: the last one listed. *)
Fixpoint assigned (kwargs : list (string * pyval)) (key : string) : option pyval :=
  match kwargs with
  | [] => None
  | (k, v) :: rest =>
      match assigned rest key with
      | Some v' => Some v'
      | None => if String.eqb k key then Some v else None
      end
  end.

(** The block run when the condition matches: [alert.trigger()], the
    event with its own reading of the clock, the append to the history and
    its trimming to the last [max_history] events, and the callbacks. *)
Definition fire (now : nat -> Z) (m : AlertManager) (l : nat) (alert : Alert)
    (metric_value : pyval) : AlertManager :=
  let alert' := trigger (now (clock m)) alert in
  let event :=
    {| ev_timestamp := now (S (clock m));
       ev_alert_name := name alert';
       ev_metric := metric alert';
       ev_value := metric_value;
       ev_threshold := threshold alert';
       ev_condition := condition alert';
       ev_symbol_pair := symbol_pair alert' |} in
  let history := alert_history m ++ [event] in
  let history :=
    if (max_history m <? length history)%nat
    then slice_from (- Z.of_nat (max_history m)) history
    else history in
  {| heap := <[l := alert']> (heap m);
     alerts := alerts m;
     alert_history := history;
     callbacks := callbacks m;
     max_history := max_history m;
     invoked := invoked m ++ ((fun cb => (cb, event)) <$> callbacks m);
     clock := S (S (clock m)) |}.

(** One round of the loop of [check_alerts]. *)
Inductive outcome := Skipped | Fired | Raised.

Definition check_alert (now : nat -> Z)
    (analytics_data : gmap string (gmap string pyval))
    (m : AlertManager) (l : nat) : AlertManager * outcome :=
  match heap m !! l with
  | None => (m, Skipped)
  | Some alert =>
      if negb (enabled alert) then (m, Skipped)
      else
        match analytics_data !! symbol_pair alert with
        | None => (m, Skipped)
        | Some pair_data =>
            match pair_data !! metric alert with
            | None | Some PNone => (m, Skipped)
            | Some metric_value =>
                match check_py alert metric_value with
                | None => (m, Raised)
                | Some false => (m, Skipped)
                | Some true => (fire now m l alert metric_value, Fired)
                end
            end
        end
  end.

(** [check_alerts]: the state after the call, and the returned list of
    triggered alerts, or [None] when the call raised. *)
Fixpoint check_loop (now : nat -> Z)
    (analytics_data : gmap string (gmap string pyval))
    (ls : list nat) (m : AlertManager) (triggered : list nat)
    : AlertManager * option (list nat) :=
  match ls with
  | [] => (m, Some triggered)
  | l :: ls' =>
      match check_alert now analytics_data m l with
      | (m', Skipped) => check_loop now analytics_data ls' m' triggered
      | (m', Fired) => check_loop now analytics_data ls' m' (triggered ++ [l])
      | (m', Raised) => (m', None)
      end
  end.

Definition check_alerts (now : nat -> Z)
    (analytics_data : gmap string (gmap string pyval)) (m : AlertManager)
    : AlertManager * option (list nat) :=
  check_loop now analytics_data (alerts m) m [].

(** The alert triggers on the snapshots. *)
Definition fires (analytics_data : gmap string (gmap string pyval)) (a : Alert) : bool :=
  enabled a &&
  match analytics_data !! symbol_pair a with
  | None => false
  | Some pair_data =>
      match pair_data !! metric a with
      | None | Some PNone => false
      | Some v => match check_py a v with
                  | Some true => true
                  | _ => false
                  end
      end
  end.

(** The four ways not to trigger that the specification lists. *)
Definition not_firing (analytics_data : gmap string (gmap string pyval))
    (a : Alert) : Prop :=
  enabled a = false \/
  analytics_data !! symbol_pair a = None \/
  (exists pair_data, analytics_data !! symbol_pair a = Some pair_data /\
     (pair_data !! metric a = None \/ pair_data !! metric a = Some PNone)) \/
  (exists pair_data v q, analytics_data !! symbol_pair a = Some pair_data /\
     pair_data !! metric a = Some v /\ as_number v = Some q /\
     check a q = false).

(** The event is one of alert [a]. *)
Definition event_of (a : Alert) (e : AlertEvent) : Prop :=
  ev_alert_name e = name a /\ ev_metric e = metric a /\
  ev_threshold e = threshold a /\ ev_condition e = condition a /\
  ev_symbol_pair e = symbol_pair a.

(** Two states of one alert that differ at most in what [trigger] writes. *)
Definition same_rule (a a' : Alert) : Prop :=
  name a' = name a /\ condition a' = condition a /\ metric a' = metric a /\
  threshold a' = threshold a /\ symbol_pair a' = symbol_pair a /\
  enabled a' = enabled a.

(** What rounds of the loop may have changed between [m0] and [m]: an
    alert only in what [trigger] writes, and only if it triggers; the
    history and the log of callback calls only by events of alerts that
    trigger. *)
Definition frame (analytics_data : gmap string (gmap string pyval))
    (m0 m : AlertManager) : Prop :=
  alerts m = alerts m0 /\ callbacks m = callbacks m0 /\
  (forall l, match heap m0 !! l, heap m !! l with
             | Some a, Some a' =>
                 same_rule a a' /\ (fires analytics_data a = false -> a' = a)
             | None, None => True
             | _, _ => False
             end) /\
  (forall e, e ∈ alert_history m ->
     e ∈ alert_history m0 \/
     exists l a, l ∈ alerts m0 /\ heap m0 !! l = Some a /\
                 fires analytics_data a = true /\ event_of a e) /\
  (forall cb e, (cb, e) ∈ invoked m ->
     (cb, e) ∈ invoked m0 \/
     exists l a, l ∈ alerts m0 /\ heap m0 !! l = Some a /\
                 fires analytics_data a = true /\ event_of a e).


(** [Alert(...)]: a new object, at an address not in use. *)
Definition alloc (m : AlertManager) (a : Alert) : AlertManager * nat :=
  let l := fresh (dom (heap m)) in
  ({| heap := <[l := a]> (heap m); alerts := alerts m;
      alert_history := alert_history m; callbacks := callbacks m;
      max_history := max_history m; invoked := invoked m; clock := clock m |},
   l).

(** [add_alert(alert)], for the object at address [l]. *)
Definition add_alert (m : AlertManager) (l : nat) : AlertManager :=
  {| heap := heap m; alerts := alerts m ++ [l];
     alert_history := alert_history m; callbacks := callbacks m;
     max_history := max_history m; invoked := invoked m; clock := clock m |}.

(** [add_alert(Alert(...))]. *)
Definition add_new_alert (m : AlertManager) (a : Alert) : AlertManager :=
  add_alert (alloc m a).1 (alloc m a).2.

(** [remove_alert]: the list without the alerts of that name. *)
Definition other_name (h : gmap nat Alert) (alert_name : string) (l : nat) : bool :=
  match h !! l with
  | Some a => negb (String.eqb (name a) alert_name)
  | None => true
  end.

Definition remove_alert (m : AlertManager) (alert_name : string) : AlertManager :=
  {| heap := heap m;
     alerts := List.filter (other_name (heap m) alert_name) (alerts m);
     alert_history := alert_history m; callbacks := callbacks m;
     max_history := max_history m; invoked := invoked m; clock := clock m |}.

(** [add_callback]. *)
Definition add_callback (m : AlertManager) (cb : nat) : AlertManager :=
  {| heap := heap m; alerts := alerts m;
     alert_history := alert_history m; callbacks := callbacks m ++ [cb];
     max_history := max_history m; invoked := invoked m; clock := clock m |}.

(** [get_alert_history]. *)
Definition get_alert_history (m : AlertManager) (limit : Z) : list AlertEvent :=
  slice_from (- limit) (alert_history m).



(** Every listed reference points to an object. *)
Definition wf (m : AlertManager) : Prop :=
  forall l, l ∈ alerts m -> is_Some (heap m !! l).

(** The check of the alert raises on the snapshots: it is enabled, its
    metric has a value that is no number, and its condition is one of the
    five that compare. *)
Definition raises (analytics_data : gmap string (gmap string pyval)) (a : Alert) : bool :=
  enabled a &&
  match analytics_data !! symbol_pair a with
  | None => false
  | Some pair_data =>
      match pair_data !! metric a with
      | None | Some PNone => false
      | Some v => match check_py a v with
                  | None => true
                  | Some _ => false
                  end
      end
  end.

Definition fires_at (analytics_data : gmap string (gmap string pyval))
    (h : gmap nat Alert) (l : nat) : bool :=
  match h !! l with
  | Some a => fires analytics_data a
  | None => false
  end.

Definition raises_at (analytics_data : gmap string (gmap string pyval))
    (h : gmap nat Alert) (l : nat) : bool :=
  match h !! l with
  | Some a => raises analytics_data a
  | None => false
  end.

(** Test data: the manager of src/test_system.py, and one with four alerts
    of which only the first triggers on [example_data]. *)
Definition test_alert : Alert :=
  new_alert "Test Alert" "greater" "z_score" 2 "btcusdt_ethusdt" true.

Definition manager_of (objects : list Alert) (cbs : list nat) : AlertManager :=
  {| heap := list_to_map (zip (seq 0 (length objects)) objects);
     alerts := seq 0 (length objects);
     alert_history := []; callbacks := cbs; max_history := 100;
     invoked := []; clock := 0 |}.

Definition example_data : gmap string (gmap string pyval) :=
  {[ "btcusdt_ethusdt"%string :=
       {[ "z_score"%string := PFloat (25 # 10);
          "spread"%string := PObj ]} ]}.

Definition four_alerts : list Alert :=
  [ test_alert;
    new_alert "Disabled" "greater" "z_score" 2 "btcusdt_ethusdt" false;
    new_alert "Other pair" "greater" "z_score" 2 "solusdt_ethusdt" true;
    new_alert "No match" "less" "z_score" 2 "btcusdt_ethusdt" true ].

End Alerts.

(** ** backend/alerts.py: the alert as an object *)

Module AlertObjects.
Import Py Alerts.

(** [update_alert] works on the alert through [hasattr] and [setattr],
    which know no types: an attribute takes whatever value the request
    gives.  Here the alert is what the interpreter holds: its instance
    dictionary, a map from attribute names to values.  [object_of] is the
    instance dictionary that [__init__] fills. *)
Definition object_of (a : Alert) : gmap string pyval :=
  list_to_map
    [ ("name", PStr (name a)); ("condition", PStr (condition a));
      ("metric", PStr (metric a)); ("threshold", PFloat (threshold a));
      ("symbol_pair", PStr (symbol_pair a)); ("enabled", PBool (enabled a));
      ("triggered_count", PInt (triggered_count a));
      ("last_triggered", match last_triggered a with
                         | Some t => PDatetime t
                         | None => PNone
                         end) ]%string.

(** The manager, as far as [update_alert] can reach it. *)
Record Manager := mkManager {
  heap : gmap nat (gmap string pyval);
  alerts : list nat;
  alert_history : list AlertEvent;
  callbacks : list nat
}.

Definition manager_of (m : AlertManager) : Manager :=
  {| heap := object_of <$> Alerts.heap m;
     alerts := Alerts.alerts m;
     alert_history := Alerts.alert_history m;
     callbacks := Alerts.callbacks m |}.

(** [alert.name == alert_name]: only a string equals a string. *)
Definition name_is (alert_name : string) (v : pyval) : bool :=
  match v with
  | PStr s => String.eqb s alert_name
  | _ => false
  end.

(** [get_alert]: the first listed alert with the name.  Reading [alert.name]
    from an object without that attribute raises AttributeError. *)
Inductive lookup :=
| Found (l : nat) (o : gmap string pyval)
| NotFound
| LookupRaises.

Fixpoint find_alert (h : gmap nat (gmap string pyval)) (alert_name : string)
    (ls : list nat) : lookup :=
  match ls with
  | [] => NotFound
  | l :: ls' =>
      match h !! l with
      | Some o =>
          match o !! "name"%string with
          | Some v => if name_is alert_name v then Found l o
                      else find_alert h alert_name ls'
          | None => LookupRaises
          end
      | None => find_alert h alert_name ls'
      end
  end.

Definition get_alert (m : Manager) (alert_name : string) : lookup :=
  find_alert (heap m) alert_name (alerts m).

(** Names that the class defines, for every alert: its methods, and the
    special attributes of a class written in Python. *)
Definition class_attrs : list string :=
  [ "__init__"; "check"; "trigger"; "to_dict"; "__module__"; "__doc__";
    "__dict__"; "__weakref__"; "__class__" ]%string.

(** The three that the interpreter guards: [__weakref__] cannot be
    assigned; [__class__] takes only a class (of the same layout) and
    [__dict__] only a dict, and they then replace the class or the whole
    instance dictionary of the object. *)
Definition protected (key : string) : bool :=
  bool_decide (key ∈ [ "__class__"; "__dict__"; "__weakref__" ]%string).

Section WithInterpreter.

(** The other names that the class or its base [object] defines
    ([__eq__], [__repr__], ...): which ones depends on the version of the
    interpreter. *)
Variable inherited : string -> bool.

(** [hasattr(alert, key)]. *)
Definition hasattr (o : gmap string pyval) (key : string) : bool :=
  bool_decide (is_Some (o !! key)) || bool_decide (key ∈ class_attrs)
  || inherited key.

(** [setattr(alert, key, value)].  A name that is not guarded is stored in
    the instance dictionary, over the class attribute if there is one.  An
    assignment to [__weakref__] raises, and so does one of a string, a
    number, None or a datetime to [__class__] or [__dict__].  Of the values
    of [pyval] only [PObj] can be a class or a dict: with it the interpreter
    raises or rebinds the object, by what the object is, and neither that
    choice nor the object afterwards is modelled. *)
Inductive assignment :=
| Stored (o : gmap string pyval)
| Refused
| RefusedOrRebound.

Definition setattr (o : gmap string pyval) (key : string) (value : pyval) : assignment :=
  if String.eqb key "__weakref__" then Refused
  else if String.eqb key "__class__" || String.eqb key "__dict__" then
    match value with
    | PObj => RefusedOrRebound
    | _ => Refused
    end
  else Stored (<[key := value]> o).

(** The loop of [update_alert] over [kwargs.items()]: the object when the
    loop ends, and how it ends. *)
Inductive ending := Returns | Raises | RaisesOrRebinds.

Fixpoint apply_kwargs (o : gmap string pyval) (kwargs : list (string * pyval))
    : gmap string pyval * ending :=
  match kwargs with
  | [] => (o, Returns)
  | (key, value) :: rest =>
      if hasattr o key then
        match setattr o key value with
        | Stored o' => apply_kwargs o' rest
        | Refused => (o, Raises)
        | RefusedOrRebound => (o, RaisesOrRebinds)
        end
      else apply_kwargs o rest
  end.

(** [update_alert].  A call that passes [self] or [alert_name] as a
    keyword raises before the body runs.  The alert is changed in place:
    what the loop has set before it raises stays set. *)
Definition update_alert (m : Manager) (alert_name : string)
    (kwargs : list (string * pyval)) : Manager * ending :=
  if names_parameter kwargs then (m, Raises)
  else
    match get_alert m alert_name with
    | Found l o =>
        let r := apply_kwargs o kwargs in
        ({| heap := <[l := r.1]> (heap m); alerts := alerts m;
            alert_history := alert_history m; callbacks := callbacks m |}, r.2)
    | NotFound => (m, Returns)
    | LookupRaises => (m, Raises)
    end.


End WithInterpreter.

(** Test data: an interpreter whose [object] defines [__eq__] and
    [__repr__] besides the names of [class_attrs]. *)
Definition some_inherited (key : string) : bool :=
  bool_decide (key ∈ [ "__eq__"; "__repr__" ]%string).

End AlertObjects.

(* ===================================================================== *)
(** * Part II: properties                                                 *)
(* ===================================================================== *)

Module NumSpec.

Lemma ltb_lt (x y : Q) : Num.ltb x y = true <-> (x < y)%Q.
Proof.
  unfold Num.ltb. rewrite negb_true_iff.
  split.
  - intros H. apply Qnot_le_lt. intros Hle.
    apply Qle_bool_iff in Hle. congruence.
  - intros H. destruct (Qle_bool y x) eqn:E; [|reflexivity].
    apply Qle_bool_iff in E. exfalso. apply (Qlt_not_le _ _ H E).
Qed.

Lemma leb_le (x y : Q) : Num.leb x y = true <-> (x <= y)%Q.
Proof. unfold Num.leb. apply Qle_bool_iff. Qed.

End NumSpec.

Module ResamplerSpec.
Import Database Resampler.

(** *** Maximum and minimum return one of their arguments *)

Lemma Qmax_cases (x y : Q) :
  (Qmax x y = x /\ (y <= x)%Q) \/ (Qmax x y = y /\ (x <= y)%Q).
Proof.
  unfold Qmax, GenericMinMax.gmax.
  destruct (x ?= y)%Q eqn:E.
  - left. split; [reflexivity|]. apply Qeq_alt in E. rewrite E. apply Qle_refl.
  - right. split; [reflexivity|]. apply Qlt_alt in E. now apply Qlt_le_weak.
  - left. split; [reflexivity|]. apply Qgt_alt in E. now apply Qlt_le_weak.
Qed.

Lemma Qmin_cases (x y : Q) :
  (Qmin x y = x /\ (x <= y)%Q) \/ (Qmin x y = y /\ (y <= x)%Q).
Proof.
  unfold Qmin, GenericMinMax.gmin.
  destruct (x ?= y)%Q eqn:E.
  - left. split; [reflexivity|]. apply Qeq_alt in E. rewrite E. apply Qle_refl.
  - left. split; [reflexivity|]. apply Qlt_alt in E. now apply Qlt_le_weak.
  - right. split; [reflexivity|]. apply Qgt_alt in E. now apply Qlt_le_weak.
Qed.

(** *** The stable sort *)

Definition ts_le (a b : TickRow) : Prop := timestamp a <= timestamp b.

Lemma insert_by_timestamp_elem t u l :
  u ∈ insert_by_timestamp t l <-> u = t \/ u ∈ l.
Proof.
  induction l as [|v l IH]; simpl.
  - rewrite elem_of_cons. reflexivity.
  - destruct (timestamp t <=? timestamp v).
    + rewrite elem_of_cons. reflexivity.
    + rewrite !elem_of_cons, IH. tauto.
Qed.

Lemma sort_index_elem u df : u ∈ sort_index df <-> u ∈ df.
Proof.
  induction df as [|t df IH]; simpl; [reflexivity|].
  rewrite insert_by_timestamp_elem, elem_of_cons, IH. reflexivity.
Qed.

Lemma insert_by_timestamp_sorted t l :
  StronglySorted ts_le l -> StronglySorted ts_le (insert_by_timestamp t l).
Proof.
  induction 1 as [|v l Hs IH Hall]; simpl.
  - repeat constructor.
  - destruct (Z.leb_spec (timestamp t) (timestamp v)) as [Hle|Hgt].
    + constructor; [constructor; assumption|].
      constructor; [exact Hle|].
      eapply Forall_impl; [exact Hall|]. unfold ts_le. intros; simpl in *; lia.
    + constructor; [exact IH|].
      apply Forall_forall. intros w Hw.
      apply insert_by_timestamp_elem in Hw as [->|Hw].
      * unfold ts_le; lia.
      * rewrite Forall_forall in Hall. now apply Hall.
Qed.

Lemma sort_index_sorted df : StronglySorted ts_le (sort_index df).
Proof.
  induction df as [|t df IH]; simpl; [constructor|].
  now apply insert_by_timestamp_sorted.
Qed.

Lemma sort_index_nil df : sort_index df = [] -> df = [].
Proof.
  destruct df as [|t df]; [reflexivity|]. intros H.
  assert (Ht : t ∈ sort_index (t :: df)) by (apply sort_index_elem; left).
  rewrite H in Ht. inversion Ht.
Qed.

Lemma sorted_snoc_inv (l : list TickRow) t :
  StronglySorted ts_le (l ++ [t]) ->
  StronglySorted ts_le l /\ Forall (fun u => ts_le u t) l.
Proof.
  induction l as [|u l IH]; simpl; intros H.
  - split; constructor.
  - inversion H as [|? ? Hs Hall]; subst.
    destruct (IH Hs) as [Hl Hlt]. split.
    + constructor; [exact Hl|].
      rewrite Forall_app in Hall. tauto.
    + constructor; [|exact Hlt].
      rewrite Forall_app, Forall_singleton in Hall. tauto.
Qed.

Lemma sorted_app_inv {A} (R : A -> A -> Prop) (l k : list A) :
  StronglySorted R (l ++ k) ->
  StronglySorted R l /\ StronglySorted R k /\
  forall x y, x ∈ l -> y ∈ k -> R x y.
Proof.
  induction l as [|a l IH]; simpl; intros H.
  - split; [constructor|]. split; [exact H|]. intros x y Hx. inversion Hx.
  - inversion H as [|? ? Hs Hall]; subst.
    destruct (IH Hs) as (Hl & Hk & Hlk). rewrite Forall_app in Hall.
    split; [constructor; tauto|]. split; [exact Hk|].
    intros x y Hx Hy. apply elem_of_cons in Hx as [->|Hx].
    + destruct Hall as [_ Hall]. rewrite Forall_forall in Hall. now apply Hall.
    + now apply Hlk.
Qed.

Lemma sorted_snoc {A} (R : A -> A -> Prop) (l : list A) (x : A) :
  StronglySorted R l -> Forall (fun y => R y x) l -> StronglySorted R (l ++ [x]).
Proof.
  induction 1 as [|a l Hs IH Hall]; intros Hx; simpl.
  - repeat constructor.
  - inversion Hx; subst. constructor; [now apply IH|].
    apply Forall_app. split; [exact Hall|]. repeat constructor. assumption.
Qed.

Lemma sorted_reverse {A} (R : A -> A -> Prop) (l : list A) :
  StronglySorted R l -> StronglySorted (fun a b => R b a) (reverse l).
Proof.
  induction 1 as [|a l Hs IH Hall]; [constructor|].
  rewrite reverse_cons. apply sorted_snoc; [exact IH|].
  apply Forall_forall. intros y Hy. rewrite elem_of_reverse in Hy.
  rewrite Forall_forall in Hall. now apply Hall.
Qed.

Lemma sorted_fmap {A B} (f : A -> B) (R : B -> B -> Prop) (l : list A) :
  StronglySorted (fun a b => R (f a) (f b)) l -> StronglySorted R (f <$> l).
Proof.
  induction 1 as [|a l Hs IH Hall]; simpl; constructor; [exact IH|].
  apply Forall_fmap. exact Hall.
Qed.

Lemma bin_label_mono off first a b :
  offset_ok off -> a <= b -> bin_label off first a <= bin_label off first b.
Proof.
  destruct off as [width|label]; simpl; intros Hok Hab.
  - apply Z.add_le_mono_l. apply Z.mul_le_mono_nonneg_l; [lia|].
    apply Z.div_le_mono; lia.
  - now apply Hok.
Qed.

(** A bin of a fixed frequency is the half-open interval of that width
    from its label. *)
Lemma tick_label_range width first ts :
  bin_label (Tick width) first ts <= ts
  < bin_label (Tick width) first ts + Z.pos width.
Proof.
  simpl. set (origin := day * (first / day)).
  pose proof (Z.mul_div_le (ts - origin) (Z.pos width) ltac:(lia)).
  pose proof (Z.mul_succ_div_gt (ts - origin) (Z.pos width) ltac:(lia)). lia.
Qed.

(** For a width that divides a day (1 s, 1 min, 5 min) the labels are the
    multiples of the width, whatever the first row. *)
Lemma tick_label_multiple width first ts :
  (Z.pos width | day) ->
  bin_label (Tick width) first ts = Z.pos width * (ts / Z.pos width).
Proof.
  intros [k Hk]. simpl. rewrite Hk.
  replace (ts - k * Z.pos width * (first / (k * Z.pos width)))
    with (ts + (- (k * (first / (k * Z.pos width)))) * Z.pos width) by lia.
  rewrite Z.div_add by lia. lia.
Qed.

(** *** One bar against the rows of its bin *)

Lemma bar_spec_new label t : bar_spec [t] (new_bar label t).
Proof.
  unfold bar_spec; simpl. repeat split.
  - exists t. split; reflexivity.
  - exists t. split; reflexivity.
  - repeat constructor. apply Qle_refl.
  - constructor. reflexivity.
  - repeat constructor. apply Qle_refl.
  - constructor. reflexivity.
Qed.

Lemma bar_spec_snoc rows b t :
  bar_spec rows b -> bar_spec (rows ++ [t]) (add_to_bar b t).
Proof.
  intros ([f [Hf Ho]] & [l [Hl Hc]] & [Hhi Hhi'] & [Hlo Hlo'] & Hv).
  unfold bar_spec; simpl. repeat split.
  - exists f. split; [|exact Ho].
    destruct rows; [discriminate|]. exact Hf.
  - exists t. split; [apply last_snoc|reflexivity].
  - apply Forall_app. split.
    + eapply Forall_impl; [exact Hhi|]. intros u Hu; simpl in *.
      eapply Qle_trans; [exact Hu|]. apply Q.le_max_l.
    + constructor; [|constructor]. apply Q.le_max_r.
  - apply Exists_app. destruct (Qmax_cases (high b) (price t)) as [[-> _]|[-> _]].
    + left. exact Hhi'.
    + right. constructor. reflexivity.
  - apply Forall_app. split.
    + eapply Forall_impl; [exact Hlo|]. intros u Hu; simpl in *.
      eapply Qle_trans; [|exact Hu]. apply Q.le_min_l.
    + constructor; [|constructor]. apply Q.le_min_r.
  - apply Exists_app. destruct (Qmin_cases (low b) (price t)) as [[-> _]|[-> _]].
    + left. exact Hlo'.
    + right. constructor. reflexivity.
  - rewrite fmap_app. unfold Num.sum in *. rewrite fold_left_app. simpl.
    rewrite Hv. reflexivity.
Qed.

Lemma filter_none {A} (P : A -> Prop) `{forall x, Decision (P x)} (l : list A) :
  (forall x, x ∈ l -> ~ P x) -> filter P l = [].
Proof.
  induction l as [|x l IH]; intros Hl; [reflexivity|].
  rewrite filter_cons_False by (apply Hl; left).
  apply IH. intros y Hy. apply Hl. now right.
Qed.

(** *** The invariant of the pass over the sorted rows *)

Lemma ohlc_fold_inv (label : Z -> Z) (l : list TickRow) :
  (forall a b, a <= b -> label a <= label b) ->
  StronglySorted ts_le l ->
  let acc := fold_left (ohlc_step label) l [] in
  match acc with
  | [] => l = []
  | b :: _ => exists t, last l = Some t /\
                bar_timestamp b = label (timestamp t)
  end /\
  StronglySorted (fun a b => bar_timestamp b < bar_timestamp a) acc /\
  (forall b, b ∈ acc ->
     bar_spec (filter (fun t => label (timestamp t) = bar_timestamp b) l) b) /\
  (forall t, t ∈ l ->
     exists b, b ∈ acc /\ bar_timestamp b = label (timestamp t)).
Proof.
  intros Hmono. induction l as [|t l IH] using rev_ind; intros Hs.
  - simpl. split; [reflexivity|]. split; [constructor|].
    split; intros ? H; inversion H.
  - apply sorted_snoc_inv in Hs as [Hs Hle].
    specialize (IH Hs). cbv zeta in IH |- *.
    rewrite fold_left_app. simpl.
    destruct IH as (Hhead & Hsorted & Hspec & Hcover).
    assert (Hbelow : forall u, u ∈ l ->
              label (timestamp u) <= label (timestamp t)).
    { intros u Hu. apply Hmono.
      rewrite Forall_forall in Hle. apply (Hle u Hu). }
    destruct (fold_left (ohlc_step label) l []) as [|b rest] eqn:Eacc.
    + subst l. simpl. split; [|split; [|split]].
      * exists t. split; reflexivity.
      * repeat constructor.
      * intros b Hb. apply list_elem_of_singleton in Hb as ->.
        simpl. rewrite filter_cons_True by reflexivity. apply bar_spec_new.
      * intros u Hu. apply list_elem_of_singleton in Hu as ->.
        exists (new_bar label t). split; [left|reflexivity].
    + destruct Hhead as (tl & Htl & Hb).
      assert (Hb_le : bar_timestamp b <= label (timestamp t)).
      { rewrite Hb. apply Hbelow. now apply last_Some_elem_of. }
      inversion Hsorted as [|? ? Hrest Hall]; subst.
      unfold ohlc_step. destruct (decide _) as [Heq|Hne].
      * split; [|split; [|split]].
        -- exists t. split; [apply last_snoc|exact Heq].
        -- constructor; assumption.
        -- intros b' Hb'. rewrite filter_app.
           apply elem_of_cons in Hb' as [->|Hb'].
           ++ simpl. rewrite filter_cons_True by (symmetry; exact Heq).
              apply bar_spec_snoc. apply Hspec. left.
           ++ rewrite (filter_cons_False _ t []).
              ** rewrite app_nil_r. apply Hspec. now right.
              ** rewrite Forall_forall in Hall.
                 specialize (Hall _ Hb'). simpl in Hall. lia.
        -- intros u Hu. apply elem_of_app in Hu as [Hu|Hu].
           ++ destruct (Hcover u Hu) as (b' & Hb' & Hk).
              apply elem_of_cons in Hb' as [->|Hb'].
              ** exists (add_to_bar b t). split; [left|exact Hk].
              ** exists b'. split; [now right|exact Hk].
           ++ apply list_elem_of_singleton in Hu as ->.
              exists (add_to_bar b t). split; [left|exact Heq].
      * assert (Hlt : bar_timestamp b < label (timestamp t)) by lia.
        split; [|split; [|split]].
        -- exists t. split; [apply last_snoc|reflexivity].
        -- constructor; [exact Hsorted|].
           constructor; [exact Hlt|].
           eapply Forall_impl; [exact Hall|]. simpl. intros; lia.
        -- intros b' Hb'. rewrite filter_app.
           apply elem_of_cons in Hb' as [->|Hb'].
           ++ simpl. rewrite filter_cons_True by reflexivity.
              replace (filter _ l) with (@nil TickRow); [apply bar_spec_new|].
              symmetry. apply filter_none. intros u Hu.
              assert (label (timestamp u) <= bar_timestamp b).
              { rewrite Hb. apply Hmono.
                apply last_Some in Htl as [l' ->].
                apply sorted_snoc_inv in Hs as [_ Hs].
                apply elem_of_app in Hu as [Hu|Hu].
                - rewrite Forall_forall in Hs. apply (Hs u Hu).
                - apply list_elem_of_singleton in Hu as ->. unfold ts_le; lia. }
              lia.
           ++ rewrite (filter_cons_False _ t []).
              ** rewrite app_nil_r. apply Hspec. exact Hb'.
              ** apply elem_of_cons in Hb' as [->|Hb'']; [lia|].
                 rewrite Forall_forall in Hall.
                 specialize (Hall _ Hb''). simpl in Hall. lia.
        -- intros u Hu. apply elem_of_app in Hu as [Hu|Hu].
           ++ destruct (Hcover u Hu) as (b' & Hb' & Hk).
              exists b'. split; [now right|exact Hk].
           ++ apply list_elem_of_singleton in Hu as ->.
              exists (new_bar label t). split; [left|reflexivity].
Qed.

(** What [_resample_to_ohlcv] returns once pandas has resolved the rule. *)
Lemma resample_resolved to_offset df timeframe off :
  df <> [] -> to_offset timeframe = Some off -> offset_ok off ->
  let label := bin_of off df in
  let bars := reverse (fold_left (ohlc_step label) (sort_index df) []) in
  _resample_to_ohlcv to_offset df timeframe = Some bars /\
  bars <> [] /\
  StronglySorted (fun a b => bar_timestamp a < bar_timestamp b) bars /\
  (forall t, t ∈ df ->
     exists b, b ∈ bars /\ bar_timestamp b = label (timestamp t)) /\
  (forall b, b ∈ bars -> bar_spec (bucket_rows label df (bar_timestamp b)) b).
Proof.
  intros Hne Hoff Hok label bars.
  destruct (ohlc_fold_inv label (sort_index df)
              (fun a b => bin_label_mono off _ a b Hok) (sort_index_sorted df))
    as (Hhead & Hsorted & Hspec & Hcover).
  split; [|split; [|split; [|split]]].
  - unfold _resample_to_ohlcv. rewrite Hoff. destruct df; [congruence|reflexivity].
  - subst bars. intros Hnil.
    apply (f_equal reverse) in Hnil. rewrite reverse_involutive in Hnil.
    rewrite Hnil in Hhead. simpl in Hhead.
    apply Hne. now apply sort_index_nil.
  - apply (sorted_reverse (fun a b => bar_timestamp b < bar_timestamp a)).
    exact Hsorted.
  - intros t Ht. apply sort_index_elem in Ht.
    destruct (Hcover t Ht) as (b & Hb & Hk).
    exists b. split; [subst bars; now rewrite elem_of_reverse|exact Hk].
  - intros b Hb. subst bars. rewrite elem_of_reverse in Hb. apply Hspec. exact Hb.
Qed.

Lemma ascending_NoDup (bars : list OhlcvRow) :
  StronglySorted (fun a b => bar_timestamp a < bar_timestamp b) bars ->
  NoDup (bar_timestamp <$> bars).
Proof.
  induction 1 as [|b acc Hs IH Hall]; simpl; constructor; [|exact IH].
  intros Hin. apply list_elem_of_fmap in Hin as (b' & Heq & Hb').
  rewrite Forall_forall in Hall. specialize (Hall _ Hb'). lia.
Qed.

(** C1.  Whatever pandas makes of the rule strings: an empty frame gives an
    empty frame; on a non-empty frame [_resample_to_ohlcv] raises when
    pandas rejects the rule, and otherwise returns one bar per bin that
    holds a tick (none twice, at least one), each with open = price of the
    first row of its bin, high = the largest price, low = the smallest
    price, close = price of the last row, volume = sum of the quantities.
    With '1s' read as one second, four ticks at prices 10, 10, 11, 9 with
    quantity 1 at 0.1 s, 0.3 s, 0.6 s, 0.9 s of one second give exactly the
    bar (10, 11, 9, 9, 4). *)
Theorem resample_to_ohlcv_bars :
  (forall to_offset df timeframe,
     (df = [] -> _resample_to_ohlcv to_offset df timeframe = Some []) /\
     (df <> [] -> to_offset timeframe = None ->
      _resample_to_ohlcv to_offset df timeframe = None) /\
     (forall off,
        df <> [] -> to_offset timeframe = Some off -> offset_ok off ->
        exists bars,
          _resample_to_ohlcv to_offset df timeframe = Some bars /\
          bars <> [] /\
          NoDup (bar_timestamp <$> bars) /\
          (forall t, t ∈ df ->
             exists b, b ∈ bars /\ bar_timestamp b = bin_of off df (timestamp t)) /\
          (forall b, b ∈ bars ->
             bar_spec (bucket_rows (bin_of off df) df (bar_timestamp b)) b))) /\
  (forall to_offset,
     to_offset "1s"%string = Some (Tick 1000000) ->
     _resample_to_ohlcv to_offset one_second_ticks "1s"
     = Some [ mkOhlcvRow 1700000000000000 10 11 9 9 4 ]).
Proof.
  split.
  - intros to_offset df timeframe. split; [|split].
    + intros ->. reflexivity.
    + intros Hne Hnone. unfold _resample_to_ohlcv. rewrite Hnone.
      destruct df; [congruence|reflexivity].
    + intros off Hne Hoff Hok.
      destruct (resample_resolved to_offset df timeframe off Hne Hoff Hok)
        as (Heq & Hnil & Hasc & Hcover & Hspec).
      eexists. split; [exact Heq|]. split; [exact Hnil|].
      split; [now apply ascending_NoDup|]. split; assumption.
  - intros to_offset H1s. unfold _resample_to_ohlcv, one_second_ticks.
    rewrite H1s. vm_compute. reflexivity.
Qed.

Lemma resample_to_ohlcv_bars_witness :
  seconds_and_minutes "1s" = Some (Tick 1000000) /\
  offset_ok (Tick 1000000) /\
  _resample_to_ohlcv seconds_and_minutes one_second_ticks "1s"
  = Some [ mkOhlcvRow 1700000000000000 10 11 9 9 4 ] /\
  exists bars,
    _resample_to_ohlcv seconds_and_minutes one_second_ticks "1s" = Some bars /\
    forall b, b ∈ bars ->
      bar_spec (bucket_rows (bin_of (Tick 1000000) one_second_ticks)
                            one_second_ticks (bar_timestamp b)) b.
Proof.
  split; [reflexivity|]. split; [exact I|].
  split; [apply (proj2 resample_to_ohlcv_bars); reflexivity|].
  destruct (proj2 (proj2 (proj1 resample_to_ohlcv_bars seconds_and_minutes
                            one_second_ticks "1s"%string))
              (Tick 1000000) ltac:(discriminate) eq_refl I)
    as (bars & Heq & _ & _ & _ & Hspec).
  exists bars. split; [exact Heq|exact Hspec].
Defined.

(** The rows of a bin of a fixed frequency are the ticks of the frame
    inside its half-open interval. *)
Lemma bucket_rows_elem width df start t :
  t ∈ bucket_rows (bin_of (Tick width) df) df start ->
  t ∈ df /\ start <= timestamp t < start + Z.pos width.
Proof.
  intros Ht. unfold bucket_rows in Ht.
  apply list_elem_of_filter in Ht as [<- Ht].
  split; [now apply sort_index_elem|apply tick_label_range].
Qed.

(** With '1m' rejected, the minute bars of the configuration are never
    built; under the name '1min' they are. *)
Example resample_minute_rule :
  _resample_to_ohlcv seconds_and_minutes one_second_ticks "1m" = None /\
  _resample_to_ohlcv seconds_and_minutes one_second_ticks "1min"
  = Some [ mkOhlcvRow 1699999980000000 10 11 9 9 4 ].
Proof. split; vm_compute; reflexivity. Qed.

(** With '1m' read as month end, the four ticks make one bar labelled
    2023-11-30. *)
Example resample_month_end :
  _resample_to_ohlcv month_end_november one_second_ticks "1m"
  = Some [ mkOhlcvRow 1701302400000000 10 11 9 9 4 ].
Proof. vm_compute. reflexivity. Qed.

(** *** Saving bars *)

Lemma has_key_spec symbol timeframe ts table :
  existsb (has_key symbol timeframe ts) table = true <->
  (symbol, timeframe, ts) ∈ key_of <$> table.
Proof.
  rewrite existsb_exists, list_elem_of_fmap. unfold has_key, key_of.
  split.
  - intros (r & Hr & Hk). exists r.
    apply list_elem_of_In in Hr.
    rewrite !andb_true_iff, !bool_decide_eq_true in Hk.
    destruct Hk as [[-> ->] ->]. split; [reflexivity|exact Hr].
  - intros (r & Hk & Hr). exists r. apply list_elem_of_In in Hr.
    split; [exact Hr|]. inversion Hk; subst.
    rewrite !andb_true_iff, !bool_decide_eq_true. tauto.
Qed.

Lemma save_row_cases symbol timeframe table row :
  ((symbol, timeframe, bar_timestamp row) ∈ key_of <$> table /\
   save_row symbol timeframe table row = table) \/
  (((symbol, timeframe, bar_timestamp row) ∉ (key_of <$> table)) /\
   save_row symbol timeframe table row
   = table ++ [make_record symbol timeframe row]).
Proof.
  unfold save_row.
  destruct (existsb _ table) eqn:E.
  - left. split; [now apply has_key_spec|reflexivity].
  - right. split; [|reflexivity].
    intros H. apply has_key_spec in H. congruence.
Qed.

Lemma save_row_has_key symbol timeframe table row :
  (symbol, timeframe, bar_timestamp row)
  ∈ key_of <$> save_row symbol timeframe table row.
Proof.
  destruct (save_row_cases symbol timeframe table row) as [[H ->]|[_ ->]].
  - exact H.
  - rewrite fmap_app. apply elem_of_app. right. left.
Qed.

Lemma save_row_keeps_keys symbol timeframe table row k :
  k ∈ key_of <$> table -> k ∈ key_of <$> save_row symbol timeframe table row.
Proof.
  intros Hk.
  destruct (save_row_cases symbol timeframe table row) as [[_ ->]|[_ ->]].
  - exact Hk.
  - rewrite fmap_app. apply elem_of_app. now left.
Qed.

Lemma save_keeps_keys symbol timeframe rows table k :
  k ∈ key_of <$> table ->
  k ∈ key_of <$> _save_resampled_data symbol timeframe rows table.
Proof.
  revert table. induction rows as [|row rows IH]; intros table Hk; [exact Hk|].
  simpl. apply IH. now apply save_row_keeps_keys.
Qed.

Lemma save_has_keys symbol timeframe rows table row :
  row ∈ rows ->
  (symbol, timeframe, bar_timestamp row)
  ∈ key_of <$> _save_resampled_data symbol timeframe rows table.
Proof.
  revert table. induction rows as [|r rows IH]; intros table Hrow.
  - inversion Hrow.
  - simpl. apply elem_of_cons in Hrow as [->|Hrow].
    + apply save_keeps_keys. apply save_row_has_key.
    + now apply IH.
Qed.

Lemma save_all_present symbol timeframe rows table :
  (forall row, row ∈ rows ->
     (symbol, timeframe, bar_timestamp row) ∈ key_of <$> table) ->
  _save_resampled_data symbol timeframe rows table = table.
Proof.
  induction rows as [|r rows IH]; intros Hall; [reflexivity|].
  simpl.
  destruct (save_row_cases symbol timeframe table r) as [[_ ->]|[Hn _]].
  - apply IH. intros row Hrow. apply Hall. now right.
  - exfalso. apply Hn. apply Hall. left.
Qed.

Lemma save_appends symbol timeframe rows table :
  exists added,
    _save_resampled_data symbol timeframe rows table = table ++ added /\
    (NoDup (key_of <$> table) -> NoDup (key_of <$> (table ++ added))) /\
    Forall (fun r => (key_of r ∉ (key_of <$> table)) /\
                     rd_symbol r = symbol /\ rd_timeframe r = timeframe) added.
Proof.
  revert table. induction rows as [|r rows IH]; intros table.
  - exists []. rewrite app_nil_r. repeat split; [tauto|constructor].
  - simpl.
    destruct (save_row_cases symbol timeframe table r) as [[_ ->]|[Hn ->]].
    + apply IH.
    + destruct (IH (table ++ [make_record symbol timeframe r]))
        as (added & -> & Hnd & Hall).
      exists (make_record symbol timeframe r :: added).
      rewrite <- app_assoc. simpl. split; [reflexivity|]. split.
      * intros Htable.
        replace (table ++ make_record symbol timeframe r :: added)
          with ((table ++ [make_record symbol timeframe r]) ++ added)
          by (rewrite <- app_assoc; reflexivity).
        apply Hnd. rewrite fmap_app. apply NoDup_app. split; [exact Htable|].
        split; [|repeat constructor; apply not_elem_of_nil].
        intros k Hk Hk'. apply list_elem_of_singleton in Hk'. subst k.
        apply Hn. exact Hk.
      * constructor; [split; [exact Hn|split; reflexivity]|].
        eapply Forall_impl; [exact Hall|]. simpl.
        intros x (Hx & Hs & Ht). split; [|tauto].
        intros Hk. apply Hx. rewrite fmap_app. apply elem_of_app. now left.
Qed.

(** C4.  Saving a frame of bars for a (symbol, timeframe) a second time
    changes nothing; the stored rows keep distinct keys when they had
    distinct keys before; every stored row stays as it was, and a row is
    added only under a key that no stored row had. *)
Theorem save_resampled_data_idempotent :
  forall symbol timeframe ohlcv_df table,
    let table' := _save_resampled_data symbol timeframe ohlcv_df table in
    _save_resampled_data symbol timeframe ohlcv_df table' = table' /\
    (NoDup (key_of <$> table) -> NoDup (key_of <$> table')) /\
    (exists added,
       table' = table ++ added /\
       Forall (fun r => (key_of r ∉ (key_of <$> table)) /\
                        rd_symbol r = symbol /\ rd_timeframe r = timeframe) added) /\
    (forall row, row ∈ ohlcv_df ->
       (symbol, timeframe, bar_timestamp row) ∈ key_of <$> table').
Proof.
  intros symbol timeframe ohlcv_df table table'. subst table'.
  split; [|split; [|split]].
  - apply save_all_present. intros row Hrow. now apply save_has_keys.
  - destruct (save_appends symbol timeframe ohlcv_df table) as (added & -> & H & _).
    exact H.
  - destruct (save_appends symbol timeframe ohlcv_df table) as (added & -> & _ & H).
    exists added. split; [reflexivity|exact H].
  - intros row Hrow. now apply save_has_keys.
Qed.

Example save_twice :
  let bars := [ mkOhlcvRow 1700000000000000 10 11 9 9 4 ] in
  let once := _save_resampled_data "a" "1s" bars [] in
  once = [ mkResampledData "a" "1s" 1700000000000000 10 11 9 9 4 ] /\
  _save_resampled_data "a" "1s" bars once = once.
Proof. vm_compute. split; reflexivity. Qed.

(** *** Reading bars back *)

Lemma insert_desc_elem r u l : u ∈ insert_desc r l <-> u = r \/ u ∈ l.
Proof.
  induction l as [|v l IH]; simpl.
  - rewrite elem_of_cons. reflexivity.
  - destruct (rd_timestamp v <=? rd_timestamp r).
    + rewrite elem_of_cons. reflexivity.
    + rewrite !elem_of_cons, IH. tauto.
Qed.

Lemma sort_desc_elem u l : u ∈ sort_desc l <-> u ∈ l.
Proof.
  induction l as [|r l IH]; simpl; [reflexivity|].
  rewrite insert_desc_elem, elem_of_cons, IH. reflexivity.
Qed.

Lemma insert_desc_length r l : length (insert_desc r l) = S (length l).
Proof.
  induction l as [|v l IH]; simpl; [reflexivity|].
  destruct (rd_timestamp v <=? rd_timestamp r); simpl; [reflexivity|].
  now rewrite IH.
Qed.

Lemma sort_desc_length l : length (sort_desc l) = length l.
Proof.
  induction l as [|r l IH]; simpl; [reflexivity|].
  now rewrite insert_desc_length, IH.
Qed.

Lemma insert_desc_sorted r l :
  StronglySorted newer_first l -> StronglySorted newer_first (insert_desc r l).
Proof.
  induction 1 as [|v l Hs IH Hall]; simpl.
  - repeat constructor.
  - destruct (Z.leb_spec (rd_timestamp v) (rd_timestamp r)) as [Hle|Hgt].
    + constructor; [constructor; assumption|].
      constructor; [exact Hle|].
      eapply Forall_impl; [exact Hall|]. unfold newer_first. intros; simpl in *; lia.
    + constructor; [exact IH|].
      apply Forall_forall. intros w Hw.
      apply insert_desc_elem in Hw as [->|Hw].
      * unfold newer_first; lia.
      * rewrite Forall_forall in Hall. now apply Hall.
Qed.

Lemma sort_desc_sorted l : StronglySorted newer_first (sort_desc l).
Proof.
  induction l as [|r l IH]; simpl; [constructor|].
  now apply insert_desc_sorted.
Qed.

(** X11.  [get_ohlcv] returns at most [limit] bars, all of them stored
    bars of the symbol and timeframe, oldest first; they are the newest
    ones: a stored bar of the symbol and timeframe that is left out is not
    newer than any returned bar. *)
Theorem get_ohlcv_newest_bars :
  forall table symbol timeframe limit,
    let bars := get_ohlcv table symbol timeframe limit in
    (length bars <= limit)%nat /\
    StronglySorted (fun a b => bar_timestamp a <= bar_timestamp b) bars /\
    (forall b, b ∈ bars ->
       exists r, r ∈ table /\ rd_symbol r = symbol /\
                 rd_timeframe r = timeframe /\ b = ohlcv_row r) /\
    (forall r, r ∈ table -> rd_symbol r = symbol -> rd_timeframe r = timeframe ->
       ohlcv_row r ∈ bars \/
       forall b, b ∈ bars -> rd_timestamp r <= bar_timestamp b).
Proof.
  intros table symbol timeframe limit bars. subst bars. unfold get_ohlcv.
  set (rows := filter _ table).
  assert (Hrows : forall r, r ∈ rows <->
            (rd_symbol r = symbol /\ rd_timeframe r = timeframe) /\ r ∈ table).
  { intros r. subst rows. rewrite list_elem_of_filter. reflexivity. }
  pose proof (sort_desc_sorted rows) as Hsorted.
  rewrite <- (take_drop limit (sort_desc rows)) in Hsorted.
  apply sorted_app_inv in Hsorted as (Htake & _ & Hcross).
  split; [|split; [|split]].
  - rewrite length_fmap, length_reverse, length_take. lia.
  - apply sorted_fmap. apply (sorted_reverse newer_first). exact Htake.
  - intros b Hb. apply list_elem_of_fmap in Hb as (r & -> & Hr).
    rewrite elem_of_reverse in Hr. apply subseteq_take in Hr.
    apply sort_desc_elem, Hrows in Hr. exists r. tauto.
  - intros r Hr Hs Ht.
    assert (Hin : r ∈ take limit (sort_desc rows) ++ drop limit (sort_desc rows)).
    { rewrite take_drop. apply sort_desc_elem, Hrows. tauto. }
    apply elem_of_app in Hin as [Hin|Hin].
    + left. apply list_elem_of_fmap. exists r. split; [reflexivity|].
      now rewrite elem_of_reverse.
    + right. intros b Hb. apply list_elem_of_fmap in Hb as (r' & -> & Hr').
      rewrite elem_of_reverse in Hr'. apply (Hcross r' r Hr' Hin).
Qed.

(** *** From ticks to stored bars and back *)

Lemma filter_all {A} (P : A -> Prop) `{forall x, Decision (P x)} (l : list A) :
  (forall x, x ∈ l -> P x) -> filter P l = l.
Proof.
  induction l as [|x l IH]; intros Hl; [reflexivity|].
  rewrite filter_cons_True by (apply Hl; left).
  f_equal. apply IH. intros y Hy. apply Hl. now right.
Qed.

Lemma save_sorted_frame symbol timeframe bars : forall table,
  StronglySorted (fun a b => bar_timestamp a < bar_timestamp b) bars ->
  (forall r b, r ∈ table -> b ∈ bars ->
     rd_symbol r = symbol -> rd_timeframe r = timeframe ->
     rd_timestamp r < bar_timestamp b) ->
  _save_resampled_data symbol timeframe bars table
  = table ++ (make_record symbol timeframe <$> bars).
Proof.
  induction bars as [|b bars IH]; intros table Hs Hlow.
  - simpl. now rewrite app_nil_r.
  - inversion Hs as [|? ? Hs' Hall]; subst. cbn [_save_resampled_data fold_left].
    destruct (save_row_cases symbol timeframe table b) as [[Hin _]|[_ ->]].
    + exfalso. apply list_elem_of_fmap in Hin as (r & Hk & Hr).
      unfold key_of in Hk. injection Hk as Hsym Htf Hts.
      assert (rd_timestamp r < bar_timestamp b); [|lia].
      apply (Hlow r b Hr); [left|congruence|congruence].
    + change (fold_left (save_row symbol timeframe) bars ?t)
        with (_save_resampled_data symbol timeframe bars t).
      rewrite IH.
      * rewrite <- app_assoc. reflexivity.
      * exact Hs'.
      * intros r b' Hr Hb' Hsym Htf. apply elem_of_app in Hr as [Hr|Hr].
        -- apply Hlow; [exact Hr|now right|exact Hsym|exact Htf].
        -- apply list_elem_of_singleton in Hr as ->. simpl.
           rewrite Forall_forall in Hall. now apply Hall.
Qed.

Lemma insert_desc_oldest r l :
  (forall u, u ∈ l -> rd_timestamp r < rd_timestamp u) ->
  insert_desc r l = l ++ [r].
Proof.
  induction l as [|u l IH]; intros Hl; [reflexivity|]. simpl.
  destruct (Z.leb_spec (rd_timestamp u) (rd_timestamp r)) as [Hle|_].
  - specialize (Hl u). assert (rd_timestamp r < rd_timestamp u) by (apply Hl; left). lia.
  - f_equal. apply IH. intros v Hv. apply Hl. now right.
Qed.

Lemma sort_desc_ascending recs :
  StronglySorted (fun a b => rd_timestamp a < rd_timestamp b) recs ->
  sort_desc recs = reverse recs.
Proof.
  induction 1 as [|r recs Hs IH Hall]; [reflexivity|].
  simpl. rewrite IH, reverse_cons. apply insert_desc_oldest.
  intros u Hu. rewrite elem_of_reverse in Hu.
  rewrite Forall_forall in Hall. now apply Hall.
Qed.

Lemma ohlcv_row_make_record symbol timeframe (bars : list OhlcvRow) :
  ohlcv_row <$> (make_record symbol timeframe <$> bars) = bars.
Proof.
  induction bars as [|[] bars IH]; [reflexivity|].
  cbn [fmap list_fmap] in *. now rewrite IH.
Qed.

Lemma save_get_ohlcv symbol timeframe bars table limit :
  StronglySorted (fun a b => bar_timestamp a < bar_timestamp b) bars ->
  (forall r, r ∈ table -> ~ (rd_symbol r = symbol /\ rd_timeframe r = timeframe)) ->
  get_ohlcv (_save_resampled_data symbol timeframe bars table)
            symbol timeframe limit
  = Py.keep_last limit bars.
Proof.
  intros Hasc Hnone.
  rewrite save_sorted_frame.
  2: exact Hasc.
  2: { intros r b Hr _ Hs Ht. exfalso. apply (Hnone r Hr). tauto. }
  unfold get_ohlcv. rewrite filter_app.
  rewrite (filter_none _ table) by exact Hnone.
  rewrite filter_all.
  2: { intros r Hr. apply list_elem_of_fmap in Hr as (b & -> & _). split; reflexivity. }
  cbn [app]. rewrite sort_desc_ascending.
  2: { apply sorted_fmap. exact Hasc. }
  rewrite reverse_take, reverse_involutive, length_reverse, length_fmap.
  rewrite fmap_drop, ohlcv_row_make_record. reflexivity.
Qed.

(** X12.  Round trip.  Whenever pandas resolves the rule, the bars
    resampled from a tick frame and saved for a symbol and timeframe that
    had no stored bar are what [get_ohlcv] reads back: all of them in order
    when [limit] covers them, else the last [limit] of them. *)
Theorem resample_save_get_ohlcv :
  forall to_offset df symbol timeframe off table limit,
    to_offset timeframe = Some off -> offset_ok off ->
    (forall r, r ∈ table -> ~ (rd_symbol r = symbol /\ rd_timeframe r = timeframe)) ->
    exists bars,
      _resample_to_ohlcv to_offset df timeframe = Some bars /\
      get_ohlcv (_save_resampled_data symbol timeframe bars table)
                symbol timeframe limit
      = Py.keep_last limit bars.
Proof.
  intros to_offset df symbol timeframe off table limit Hoff Hok Hnone.
  destruct (decide (df = [])) as [->|Hne].
  - exists []. split; [reflexivity|]. apply save_get_ohlcv; [constructor|exact Hnone].
  - destruct (resample_resolved to_offset df timeframe off Hne Hoff Hok)
      as (Heq & _ & Hasc & _).
    eexists. split; [exact Heq|]. now apply save_get_ohlcv.
Qed.

Lemma resample_save_get_ohlcv_witness :
  exists bars,
    _resample_to_ohlcv seconds_and_minutes one_second_ticks "1s" = Some bars /\
    get_ohlcv (_save_resampled_data "a" "1s" bars []) "a" "1s" 100
    = Py.keep_last 100 bars.
Proof.
  apply (resample_save_get_ohlcv seconds_and_minutes one_second_ticks
           "a" "1s" (Tick 1000000) [] 100%nat).
  - reflexivity.
  - exact I.
  - intros r Hr. inversion Hr.
Defined.

Example resample_save_get_ohlcv_one_second :
  get_ohlcv (_save_resampled_data "a" "1s"
               [ mkOhlcvRow 1700000000000000 10 11 9 9 4 ] []) "a" "1s" 100
  = [ mkOhlcvRow 1700000000000000 10 11 9 9 4 ].
Proof. vm_compute. reflexivity. Qed.

(** *** One resampling pass *)

Lemma get_tick_data_elem ticks symbol start_time end_time t :
  t ∈ _get_tick_data ticks symbol start_time end_time <->
  exists tick, tick ∈ ticks /\ td_symbol tick = symbol /\
               start_time <= td_timestamp tick < end_time /\ t = tick_row tick.
Proof.
  unfold _get_tick_data. rewrite sort_index_elem, list_elem_of_fmap.
  split.
  - intros (tick & -> & Htick). apply list_elem_of_filter in Htick.
    exists tick. tauto.
  - intros (tick & Hin & Hs & Hr & ->). exists tick. split; [reflexivity|].
    apply list_elem_of_filter. tauto.
Qed.

Lemma save_added_from_frame symbol timeframe rows : forall table,
  exists added,
    _save_resampled_data symbol timeframe rows table = table ++ added /\
    Forall (fun r => (key_of r ∉ (key_of <$> table)) /\
                     exists row, row ∈ rows /\ r = make_record symbol timeframe row)
           added.
Proof.
  induction rows as [|row rows IH]; intros table.
  - exists []. rewrite app_nil_r. split; [reflexivity|constructor].
  - cbn [_save_resampled_data fold_left].
    destruct (save_row_cases symbol timeframe table row) as [[_ ->]|[Hn ->]].
    + destruct (IH table) as (added & Heq & Hall). exists added.
      split; [exact Heq|]. eapply Forall_impl; [exact Hall|]. simpl.
      intros r (Hk & row' & Hrow' & ->). split; [exact Hk|].
      exists row'. split; [now right|reflexivity].
    + destruct (IH (table ++ [make_record symbol timeframe row]))
        as (added & Heq & Hall).
      exists (make_record symbol timeframe row :: added).
      split; [unfold _save_resampled_data in Heq; rewrite Heq, <- app_assoc; reflexivity|].
      constructor.
      * split; [exact Hn|]. exists row. split; [left|reflexivity].
      * eapply Forall_impl; [exact Hall|]. simpl.
        intros r (Hk & row' & Hrow' & ->). split.
        -- intros Hin. apply Hk. rewrite fmap_app. apply elem_of_app. now left.
        -- exists row'. split; [now right|reflexivity].
Qed.

(** X13.  Whatever pandas makes of the rule strings, one pass of
    [_resample_symbol] reads the ticks of the symbol in the window
    [now - 2 * interval, now) and only appends to the bar table: stored bars
    stay as they are, also the bar of a bin that has received more ticks
    since.  When pandas rejects the rule of the timeframe nothing is added.
    Otherwise every bar added is for the symbol and timeframe, under a key
    that was not stored, and aggregates the window's ticks of its bin under
    the resolved frequency (open first, close last, high largest, low
    smallest, volume sum); when no stored bar has the symbol and timeframe,
    every bin of the window that holds a tick gets its bar. *)
Theorem resample_symbol_appends_window_bars :
  forall to_offset now ticks symbol timeframe interval table,
    (forall off, to_offset timeframe = Some off -> offset_ok off) ->
    let window := _get_tick_data ticks symbol (now - interval * 2) now in
    (forall t, t ∈ window <->
       exists tick, tick ∈ ticks /\ td_symbol tick = symbol /\
                    now - interval * 2 <= td_timestamp tick < now /\
                    t = tick_row tick) /\
    exists added,
      _resample_symbol to_offset now ticks symbol timeframe interval table
      = table ++ added /\
      (to_offset timeframe = None -> added = []) /\
      Forall (fun r =>
                rd_symbol r = symbol /\ rd_timeframe r = timeframe /\
                (key_of r ∉ (key_of <$> table)) /\
                exists off b,
                  to_offset timeframe = Some off /\
                  r = make_record symbol timeframe b /\
                  bar_spec (bucket_rows (bin_of off window) window
                                        (bar_timestamp b)) b)
             added /\
      (forall off t,
         to_offset timeframe = Some off -> t ∈ window ->
         (forall r, r ∈ table ->
            ~ (rd_symbol r = symbol /\ rd_timeframe r = timeframe)) ->
         exists r, r ∈ added /\
                   rd_timestamp r = bin_of off window (timestamp t)).
Proof.
  intros to_offset now ticks symbol timeframe interval table Hok window.
  split; [intros t; apply get_tick_data_elem|].
  unfold _resample_symbol. fold window.
  destruct (decide (window = [])) as [Ewin|Hne].
  { rewrite Ewin. exists []. rewrite app_nil_r.
    split; [reflexivity|]. split; [reflexivity|]. split; [constructor|].
    intros off t _ Ht. inversion Ht. }
  assert (Hgo : forall X Y : list ResampledData,
            match window with [] => X | _ :: _ => Y end = Y).
  { intros X Y. destruct window; [congruence|reflexivity]. }
  rewrite Hgo.
  destruct (to_offset timeframe) as [off|] eqn:Hoff.
  - destruct (resample_resolved to_offset window timeframe off Hne Hoff (Hok off eq_refl))
      as (Heq & _ & Hasc & Hcover & Hspec).
    rewrite Heq.
    set (bars := reverse (fold_left (ohlc_step (bin_of off window))
                            (sort_index window) [])) in *.
    destruct (save_added_from_frame symbol timeframe bars table)
      as (added & Hsave & Hall).
    exists added. split; [exact Hsave|]. split; [discriminate|]. split.
    + eapply Forall_impl; [exact Hall|]. simpl.
      intros r (Hk & b & Hb & ->). repeat split; try reflexivity; [exact Hk|].
      exists off, b. split; [reflexivity|]. split; [reflexivity|]. now apply Hspec.
    + intros off' t Hoff' Ht Hnone. injection Hoff' as <-.
      destruct (Hcover t Ht) as (b & Hb & Hts).
      exists (make_record symbol timeframe b). split; [|exact Hts].
      rewrite save_sorted_frame in Hsave.
      * apply app_inv_head in Hsave as <-.
        apply list_elem_of_fmap. exists b. split; [reflexivity|exact Hb].
      * exact Hasc.
      * intros r b' Hr _ Hs Ht'. exfalso. apply (Hnone r Hr). tauto.
  - assert (Hraise : _resample_to_ohlcv to_offset window timeframe = None).
    { unfold _resample_to_ohlcv. rewrite Hoff. destruct window; [congruence|reflexivity]. }
    rewrite Hraise. exists []. rewrite app_nil_r.
    split; [reflexivity|]. split; [reflexivity|]. split; [constructor|].
    intros off t Hoff'. discriminate.
Qed.

Lemma resample_symbol_appends_window_bars_witness :
  (forall off, seconds_and_minutes "1s" = Some off -> offset_ok off) /\
  _resample_symbol seconds_and_minutes 1700000001500000
    [ mkTickData "a" 1700000000100000 10 1; mkTickData "b" 1700000000200000 99 1;
      mkTickData "a" 1700000000900000 9 1 ]
    "a" "1s" 1000000
    [ mkResampledData "a" "1s" 1700000000000000 10 10 10 10 1 ]
  = [ mkResampledData "a" "1s" 1700000000000000 10 10 10 10 1 ] /\
  exists added,
    _resample_symbol seconds_and_minutes 1700000001500000
      [ mkTickData "a" 1700000000100000 10 1; mkTickData "b" 1700000000200000 99 1;
        mkTickData "a" 1700000000900000 9 1 ]
      "a" "1s" 1000000
      [ mkResampledData "a" "1s" 1700000000000000 10 10 10 10 1 ]
    = [ mkResampledData "a" "1s" 1700000000000000 10 10 10 10 1 ] ++ added.
Proof.
  assert (Hok : forall off, seconds_and_minutes "1s" = Some off -> offset_ok off).
  { intros off H. injection H as <-. exact I. }
  split; [exact Hok|]. split; [vm_compute; reflexivity|].
  destruct (resample_symbol_appends_window_bars seconds_and_minutes 1700000001500000
    [ mkTickData "a" 1700000000100000 10 1; mkTickData "b" 1700000000200000 99 1;
      mkTickData "a" 1700000000900000 9 1 ]
    "a" "1s" 1000000
    [ mkResampledData "a" "1s" 1700000000000000 10 10 10 10 1 ] Hok)
    as (_ & added & Heq & _).
  exists added. exact Heq.
Defined.

(** The worker passes '1m' with an interval of one minute.  Where pandas
    rejects '1m', the pass stores no minute bar; where it reads '1m' as
    month end, the pass stores one bar labelled by the last day of the
    month. *)
Example resample_symbol_minute_timeframe :
  let ticks := [ mkTickData "a" 1700000000100000 10 1;
                 mkTickData "a" 1700000030900000 9 1 ] in
  interval_of "1m" = Some 60000000 /\
  _resample_symbol seconds_and_minutes 1700000060000000 ticks "a" "1m" 60000000 []
  = [] /\
  _resample_symbol month_end_november 1700000060000000 ticks "a" "1m" 60000000 []
  = [ mkResampledData "a" "1m" 1701302400000000 10 10 9 9 2 ].
Proof. split; [reflexivity|]. split; vm_compute; reflexivity. Qed.

End ResamplerSpec.

Module AnalyticsSpec.
Import Analytics NumSpec.

(** *** Look-ups in a Series *)

Lemma series_get_Some {V} (s : list (Z * V)) t :
  is_Some (series_get s t) <-> t ∈ index s.
Proof.
  induction s as [|[u v] s IH]; simpl.
  - split; [intros [? ?]; discriminate|intros H; inversion H].
  - unfold index in *. simpl. rewrite elem_of_cons.
    destruct (decide (u = t)) as [->|Hne].
    + split; [now left|eauto].
    + rewrite IH. split; [now right|intros [?|?]; congruence].
Qed.

Lemma series_get_omap {V} (f : Z -> option V) (idx : list Z) t :
  series_get (omap (fun u => (fun v => (u, v)) <$> f u) idx) t
  = if decide (t ∈ idx) then f t else None.
Proof.
  induction idx as [|u idx IH].
  - simpl. destruct (decide (t ∈ [])) as [H|_]; [inversion H|reflexivity].
  - unfold omap in *. simpl. destruct (f u) as [v|] eqn:Efu; simpl.
    + destruct (decide (u = t)) as [->|Hne].
      * rewrite decide_True by left. now rewrite Efu.
      * rewrite IH. destruct (decide (t ∈ idx)) as [Hin|Hnin].
        -- rewrite decide_True by now right. reflexivity.
        -- rewrite decide_False; [reflexivity|].
           rewrite elem_of_cons. intros [?|?]; congruence.
    + rewrite IH. destruct (decide (t ∈ idx)) as [Hin|Hnin].
      * rewrite decide_True by now right. reflexivity.
      * destruct (decide (t ∈ u :: idx)) as [Hin|_]; [|reflexivity].
        apply elem_of_cons in Hin as [->|?]; [now rewrite Efu|contradiction].
Qed.

Lemma index_omap_total {V} (f : Z -> option V) (idx : list Z) :
  (forall t, t ∈ idx -> is_Some (f t)) ->
  index (omap (fun u => (fun v => (u, v)) <$> f u) idx) = idx.
Proof.
  induction idx as [|u idx IH]; intros Hall; [reflexivity|].
  simpl. destruct (Hall u) as [v Hv]; [left|]. rewrite Hv. simpl.
  unfold index in *. simpl. f_equal.
  apply IH. intros t Ht. apply Hall. now right.
Qed.

(** On labels that both Series have, the subtraction of the two [loc]
    frames lists the spread label by label. *)
Lemma spread_rows y x h (idx : list Z) :
  (forall t, t ∈ idx -> t ∈ index y /\ t ∈ index x) ->
  series_sub (loc y idx) (scale h (loc x idx))
  = omap (fun t => (fun v => (t, v)) <$> spread_at y x h t) idx.
Proof.
  induction idx as [|t idx IH]; intros Hall; [reflexivity|].
  destruct (Hall t) as [Hy Hx]; [left|].
  apply series_get_Some in Hy as [a Ha]. apply series_get_Some in Hx as [b Hb].
  unfold loc, scale, series_sub, spread_at in *. simpl.
  rewrite Ha, Hb. simpl. f_equal.
  apply IH. intros u Hu. apply Hall. now right.
Qed.

Lemma index_intersection_elem (a b : list Z) t :
  t ∈ index_intersection a b <-> t ∈ a /\ t ∈ b.
Proof. unfold index_intersection. rewrite list_elem_of_filter. tauto. Qed.

(** C2.  For Series with unique timestamps, the spread has exactly the
    timestamps common to both inputs (in the order of the first), and at
    each of them the value A[t] - hedge_ratio * B[t]; a timestamp that only
    one input has is not in the result. *)
Theorem compute_spread_inner_join :
  forall (y_series x_series : list (Z * Q)) (hedge_ratio : Q),
    NoDup (index y_series) -> NoDup (index x_series) ->
    let spread := compute_spread y_series x_series hedge_ratio in
    index spread = index_intersection (index y_series) (index x_series) /\
    NoDup (index spread) /\
    (forall t, t ∈ index spread <-> t ∈ index y_series /\ t ∈ index x_series) /\
    (forall t, series_get spread t = spread_at y_series x_series hedge_ratio t).
Proof.
  intros y x h Hy Hx spread. subst spread. unfold compute_spread.
  set (common := index_intersection (index y) (index x)).
  assert (Hcommon : forall t, t ∈ common -> t ∈ index y /\ t ∈ index x).
  { intros t. apply index_intersection_elem. }
  rewrite (spread_rows y x h common Hcommon).
  assert (Hidx : index (omap (fun t => (fun v => (t, v)) <$> spread_at y x h t) common)
                 = common).
  { apply index_omap_total. intros t Ht. destruct (Hcommon t Ht) as [H1 H2].
    apply series_get_Some in H1 as [a Ha]. apply series_get_Some in H2 as [b Hb].
    unfold spread_at. rewrite Ha, Hb. eauto. }
  rewrite Hidx. split; [reflexivity|]. split; [|split].
  - subst common. unfold index_intersection. now apply NoDup_filter.
  - intros t. apply index_intersection_elem.
  - intros t. rewrite series_get_omap.
    destruct (decide (t ∈ common)) as [Hin|Hnin]; [reflexivity|].
    unfold spread_at.
    destruct (series_get y t) as [a|] eqn:Ea; [|reflexivity].
    destruct (series_get x t) as [b|] eqn:Eb; [|reflexivity].
    exfalso. apply Hnin. apply index_intersection_elem.
    split; apply series_get_Some; eauto.
Qed.

Lemma compute_spread_inner_join_witness :
  compute_spread [(1, 10%Q); (2, 20%Q); (4, 40%Q)] [(2, 3%Q); (3, 5%Q); (4, 7%Q)] 2
  = [(2, (20 - 2 * 3)%Q); (4, (40 - 2 * 7)%Q)] /\
  index (compute_spread [(1, 10%Q); (2, 20%Q); (4, 40%Q)]
                        [(2, 3%Q); (3, 5%Q); (4, 7%Q)] 2)
  = index_intersection [1; 2; 4] [2; 3; 4].
Proof.
  split; [reflexivity|].
  apply (compute_spread_inner_join
           [(1, 10%Q); (2, 20%Q); (4, 40%Q)] [(2, 3%Q); (3, 5%Q); (4, 7%Q)] 2).
  - compute_done.
  - compute_done.
Defined.

(** *** Rolling windows *)

Lemma sum_nonneg_zero (l : list Q) (a : Q) :
  (0 <= a)%Q -> Forall (fun x => (0 <= x)%Q) l ->
  (fold_left Qplus l a == 0)%Q ->
  (a == 0)%Q /\ Forall (fun x => (x == 0)%Q) l.
Proof.
  revert a. induction l as [|x l IH]; simpl; intros a Ha Hl Hsum.
  - split; [exact Hsum|constructor].
  - inversion Hl as [|? ? Hx Hl']; subst.
    destruct (IH (a + x)%Q) as [Hax Hall]; [lra|exact Hl'|exact Hsum|].
    split; [lra|]. constructor; [lra|exact Hall].
Qed.

Lemma sum_nonneg (l : list Q) (a : Q) :
  (0 <= a)%Q -> Forall (fun x => (0 <= x)%Q) l -> (0 <= fold_left Qplus l a)%Q.
Proof.
  revert a. induction l as [|x l IH]; simpl; intros a Ha Hl; [exact Ha|].
  inversion Hl; subst. apply IH; [lra|assumption].
Qed.

Lemma Qsquare_nonneg (y : Q) : (0 <= y * y)%Q.
Proof.
  destruct (Qlt_le_dec y 0) as [Hneg|Hpos].
  - assert (E : (y * y == (- y) * (- y))%Q) by ring.
    rewrite E. apply Qmult_le_0_compat; lra.
  - apply Qmult_le_0_compat; assumption.
Qed.

Lemma squares_nonneg (m : Q) (w : list Q) :
  Forall (fun x => (0 <= x)%Q) ((fun x => (x - m) * (x - m))%Q <$> w).
Proof.
  apply Forall_fmap. apply Forall_forall. intros x _. apply Qsquare_nonneg.
Qed.

Lemma var_nonneg (w : list Q) : (1 < length w)%nat -> (0 <= var w)%Q.
Proof.
  intros Hlen. unfold var. apply Qle_shift_div_l.
  - change 0%Q with (inject_Z 0). rewrite <- Zlt_Qlt. lia.
  - rewrite Qmult_0_l. apply sum_nonneg; [apply Qle_refl|apply squares_nonneg].
Qed.

Lemma var_zero (w : list Q) :
  (1 < length w)%nat -> (var w == 0)%Q ->
  Forall (fun x => (x - mean w == 0)%Q) w.
Proof.
  intros Hlen Hvar. unfold var in Hvar.
  set (m := mean w) in *.
  set (d := inject_Z (Z.of_nat (length w) - 1)) in *.
  assert (Hd : ~ (d == 0)%Q).
  { subst d. intros H. unfold Qeq in H. simpl in H. lia. }
  set (sq := Num.sum ((fun x => (x - m) * (x - m))%Q <$> w)) in *.
  assert (Hsq : (sq == 0)%Q).
  { rewrite <- (Qmult_div_r sq d Hd). rewrite Hvar. ring. }
  destruct (sum_nonneg_zero ((fun x => (x - m) * (x - m))%Q <$> w) 0) as [_ Hall].
  - apply Qle_refl.
  - apply squares_nonneg.
  - exact Hsq.
  - apply Forall_fmap in Hall. eapply Forall_impl; [exact Hall|].
    intros x Hx. simpl in Hx.
    destruct (Qmult_integral _ _ Hx); assumption.
Qed.

Lemma window_at_length vals window i w :
  window_at vals window i = Some w -> (i < length vals)%nat ->
  length w = window /\ (window <= i + 1)%nat.
Proof.
  unfold window_at. intros Hw Hi.
  destruct (Nat.leb_spec window (i + 1)) as [Hle|]; [|discriminate].
  injection Hw as <-. rewrite length_take, length_drop. lia.
Qed.

(** The value at the position is the last observation of its window. *)
Lemma window_at_last vals window i w x :
  window_at vals window i = Some w -> (0 < window)%nat ->
  vals !! i = Some x -> x ∈ w.
Proof.
  unfold window_at. intros Hw Hpos Hx.
  destruct (Nat.leb_spec window (i + 1)) as [Hle|]; [|discriminate].
  injection Hw as <-.
  apply (list_elem_of_lookup_2 _ (window - 1)%nat).
  rewrite lookup_take_lt by lia. rewrite lookup_drop.
  replace (i + 1 - window + (window - 1))%nat with i by lia. exact Hx.
Qed.

Lemma rolling_lookup f window vals i v :
  rolling f window vals !! i = Some v ->
  (i < length vals)%nat /\
  v = match window_at vals window i with
      | Some w => f w
      | None => NaN
      end.
Proof.
  unfold rolling. rewrite list_lookup_imap. intros H.
  apply fmap_Some in H as (x & Hx & ->).
  split; [now apply lookup_lt_Some in Hx|reflexivity].
Qed.

Lemma rolling_length f window vals : length (rolling f window vals) = length vals.
Proof. unfold rolling. apply length_imap. Qed.

Lemma fillna0_not_nan a : fillna0 a <> NaN.
Proof. destruct a; discriminate. Qed.

(** Every row of the rolling branch is its label with the filled quotient. *)
Lemma z_score_row roll_mean roll_std (series : list (Z * Q)) (window i : nat) r :
  zip (index series)
      (fillna0 <$> zip_with fdiv
         (zip_with fsub (Fin <$> values series)
            (rolling_mean roll_mean window (values series)))
         (rolling_std roll_std window (values series))) !! i = Some r ->
  exists t x m sd,
    series !! i = Some (t, x) /\
    rolling_mean roll_mean window (values series) !! i = Some m /\
    rolling_std roll_std window (values series) !! i = Some sd /\
    r = (t, fillna0 (fdiv (fsub (Fin x) m) sd)).
Proof.
  intros H.
  apply lookup_zip_with_Some in H as (t & q & -> & Ht & Hq).
  rewrite list_lookup_fmap in Hq. apply fmap_Some in Hq as (q' & Hq' & ->).
  apply lookup_zip_with_Some in Hq' as (d & sd & -> & Hd & Hsd).
  apply lookup_zip_with_Some in Hd as (fx & m & -> & Hfx & Hm).
  rewrite list_lookup_fmap in Hfx. apply fmap_Some in Hfx as (x & Hx & ->).
  unfold index, values in *.
  rewrite list_lookup_fmap in Ht. rewrite list_lookup_fmap in Hx.
  apply fmap_Some in Ht as ([t' x'] & Hrow & ->).
  rewrite Hrow in Hx. simpl in Hx. injection Hx as <-.
  exists t', x', m, sd. simpl. auto.
Qed.

Lemma z_score_length roll_mean roll_std (series : list (Z * Q)) (window : nat) :
  length (zip (index series)
            (fillna0 <$> zip_with fdiv
               (zip_with fsub (Fin <$> values series)
                  (rolling_mean roll_mean window (values series)))
               (rolling_std roll_std window (values series))))
  = length series.
Proof.
  rewrite length_zip_with, length_fmap, !length_zip_with, !length_fmap.
  unfold rolling_mean, rolling_std. rewrite !rolling_length.
  unfold index, values. rewrite !length_fmap. lia.
Qed.

(** C3.  For every kernel of the rolling mean and of the rolling standard
    deviation, the z-score has the index of its input and no NaN; it is 0 at
    every position with fewer than [window] observations, and everywhere
    when the Series is shorter than [window].  At a position whose rolling
    standard deviation is 0 it is 0 only if the value equals the rolling
    mean: otherwise the quotient is an infinity, which [fillna(0)] leaves. *)
Theorem compute_z_score_zero_fill :
  forall roll_mean roll_std (series : list (Z * Q)) (window : option nat),
    let w := default Config.Z_SCORE_WINDOW window in
    let z_score := compute_z_score roll_mean roll_std series window in
    index z_score = index series /\
    Forall (fun r => r.2 <> NaN) z_score /\
    (forall i r, z_score !! i = Some r -> (i + 1 < w)%nat -> r.2 = Fin 0) /\
    ((length series < w)%nat -> Forall (fun r => r.2 = Fin 0) z_score) /\
    (forall i t x win,
       (1 < w <= length series)%nat ->
       series !! i = Some (t, x) ->
       window_at (values series) w i = Some win ->
       (roll_std win == 0)%Q ->
       z_score !! i
       = Some (t, let d := (x - roll_mean win)%Q in
                  if Qeq_bool d 0 then Fin 0
                  else if Num.ltb 0 d then PosInf else NegInf)).
Proof.
  intros roll_mean roll_std series window w z_score. subst z_score.
  unfold compute_z_score.
  fold w. destruct (Nat.ltb_spec (length series) w) as [Hshort|Hlong].
  - assert (Hall : Forall (fun r : Z * fnum => r.2 = Fin 0)
                     ((fun r : Z * Q => (r.1, Fin 0)) <$> series)).
    { apply Forall_fmap. apply Forall_forall. intros r _. reflexivity. }
    split; [|split; [|split; [|split]]].
    + unfold index. rewrite <- list_fmap_compose. reflexivity.
    + eapply Forall_impl; [exact Hall|]. intros r ->. discriminate.
    + intros i r Hr _. eapply Forall_lookup_1 in Hall; eauto.
    + intros _. exact Hall.
    + intros i t x win Hw. lia.
  - split; [|split; [|split; [|split]]].
    + unfold index at 1. apply fst_zip.
      rewrite length_fmap, !length_zip_with, !length_fmap.
      unfold rolling_mean, rolling_std. rewrite !rolling_length.
      unfold index, values. rewrite !length_fmap. lia.
    + apply Forall_lookup. intros i r Hr.
      apply z_score_row in Hr as (t & x & m & sd & _ & _ & _ & ->).
      apply fillna0_not_nan.
    + intros i r Hr Hi.
      apply z_score_row in Hr as (t & x & m & sd & _ & Hm & _ & ->).
      apply rolling_lookup in Hm as [_ ->]. unfold window_at.
      destruct (Nat.leb_spec w (i + 1)); [lia|]. reflexivity.
    + lia.
    + intros i t x win Hw Hrow Hwin Hzero.
      assert (Hi : (i < length series)%nat) by (now apply lookup_lt_Some in Hrow).
      destruct (lookup_lt_is_Some_2
                  (zip (index series)
                     (fillna0 <$> zip_with fdiv
                        (zip_with fsub (Fin <$> values series)
                           (rolling_mean roll_mean w (values series)))
                        (rolling_std roll_std w (values series)))) i) as [r Hr].
      { rewrite z_score_length. exact Hi. }
      rewrite Hr. f_equal.
      apply z_score_row in Hr as (t' & x' & m & sd & Hrow' & Hm & Hsd & ->).
      rewrite Hrow in Hrow'. injection Hrow' as <- <-.
      apply rolling_lookup in Hm as [_ ->].
      apply rolling_lookup in Hsd as [_ ->].
      rewrite Hwin.
      assert (Hlen : (i < length (values series))%nat)
        by (unfold values; now rewrite length_fmap).
      destruct (window_at_length _ _ _ _ Hwin Hlen) as [Hlw _].
      destruct (Nat.eqb_spec (length win) 0) as [|_]; [lia|].
      destruct (Nat.leb_spec (length win) 1) as [|_]; [lia|].
      cbn [fsub fdiv]. apply Qeq_bool_iff in Hzero. rewrite Hzero.
      cbv zeta. destruct (Qeq_bool (x - roll_mean win) 0); [reflexivity|].
      destruct (Num.ltb 0 (x - roll_mean win)); reflexivity.
Qed.

(** At the second value of the Series (0, 1e-200) with a window of 2, the
    rolling mean is 5e-201 and the squared deviations underflow: the rolling
    standard deviation is 0 and the z-score is +inf. *)
Lemma compute_z_score_zero_fill_witness :
  rolling_std underflow_std 2 (values tiny_series) !! 1%nat = Some (Fin 0) /\
  compute_z_score mean underflow_std tiny_series (Some 2%nat) !! 1%nat
  = Some (1000000, PosInf).
Proof.
  split; [vm_compute; reflexivity|].
  refine (eq_trans
            (proj2 (proj2 (proj2 (proj2
               (compute_z_score_zero_fill mean underflow_std tiny_series
                  (Some 2%nat)))))
               1%nat 1000000 (1 # 10 ^ 200) [0%Q; 1 # 10 ^ 200] _ _ _ _) _).
  - simpl. lia.
  - reflexivity.
  - reflexivity.
  - vm_compute. reflexivity.
  - vm_compute. reflexivity.
Defined.

(** With the exact mean and variance, and a square root that is 0 only at
    0, a rolling standard deviation of 0 means a flat window: the z-score is
    then 0. *)
Lemma compute_z_score_exact_kernels (sqrtQ : Q -> Q) :
  (forall v, (0 <= v)%Q -> (sqrtQ v == 0)%Q -> (v == 0)%Q) ->
  forall (series : list (Z * Q)) (window : option nat) i sd r,
    let w := default Config.Z_SCORE_WINDOW window in
    rolling_std (fun win => sqrtQ (var win)) w (values series) !! i = Some (Fin sd) ->
    (sd == 0)%Q ->
    compute_z_score mean (fun win => sqrtQ (var win)) series window !! i = Some r ->
    r.2 = Fin 0.
Proof.
  intros sqrtQ_zero series window i sd r w Hsd Hzero Hr.
  unfold compute_z_score in Hr. fold w in Hr.
  destruct (Nat.ltb_spec (length series) w) as [Hshort|Hlong].
  - rewrite list_lookup_fmap in Hr. apply fmap_Some in Hr as (r0 & _ & ->).
    reflexivity.
  - apply z_score_row in Hr as (t & x & m & sd' & Hrow & Hm & Hsd' & ->).
    rewrite Hsd in Hsd'. injection Hsd' as <-.
    apply rolling_lookup in Hsd as [Hi Hsd].
    apply rolling_lookup in Hm as [_ ->].
    destruct (window_at (values series) w i) as [win|] eqn:Ewin; [|discriminate].
    destruct (Nat.leb_spec (length win) 1) as [|Hlen]; [discriminate|].
    injection Hsd as ->.
    destruct (Nat.eqb_spec (length win) 0) as [|_]; [lia|].
    destruct (window_at_length _ _ _ _ Ewin Hi) as [Hw _].
    assert (Hx : x ∈ win).
    { apply (window_at_last (values series) w i); [exact Ewin|lia|].
      unfold values. rewrite list_lookup_fmap, Hrow. reflexivity. }
    pose proof (var_zero win Hlen (sqrtQ_zero _ (var_nonneg win Hlen) Hzero)) as Hflat.
    rewrite Forall_forall in Hflat. specialize (Hflat x Hx).
    simpl. apply Qeq_bool_iff in Hzero, Hflat.
    rewrite Hzero, Hflat. reflexivity.
Qed.

Lemma Qsqrt_up_zero (v : Q) : (0 <= v)%Q -> (Qsqrt_up v == 0)%Q -> (v == 0)%Q.
Proof.
  unfold Qsqrt_up, Qeq, Qle. destruct v as [n d]. simpl. intros Hv H.
  assert (Hs : Z.sqrt_up (n * Z.pos d) = 0) by lia.
  assert (Hn : n = 0 \/ 0 < n) by lia.
  destruct Hn as [->|Hn]; [reflexivity|].
  assert (0 < Z.sqrt_up (n * Z.pos d)) by (apply Z.sqrt_up_pos; nia). lia.
Qed.

Example z_score_flat :
  compute_z_score mean exact_std flat_series (Some 2%nat)
  = [(0, Fin 0); (1000000, Fin 0); (2000000, Fin 0); (3000000, Fin 0)].
Proof. vm_compute. reflexivity. Qed.

Example z_score_short :
  compute_z_score mean exact_std flat_series None
  = [(0, Fin 0); (1000000, Fin 0); (2000000, Fin 0); (3000000, Fin 0)].
Proof. vm_compute. reflexivity. Qed.

Example z_score_underflow :
  compute_z_score mean underflow_std tiny_series (Some 2%nat)
  = [(0, Fin 0); (1000000, PosInf)].
Proof. vm_compute. reflexivity. Qed.

(** *** Stationarity test *)

(** C6.  A Series of fewer than 10 values gets the degenerate result
    (statistic 0, p-value 1, no critical values, not stationary) and the
    external test is not called.  For 10 values or more, when the external
    test returns, it was called once, the result carries its p-value, and
    [is_stationary] is true exactly when that p-value is below 0.05. *)
Theorem perform_adf_test_spec :
  (forall series adfuller,
     (length series < 10)%nat ->
     perform_adf_test series = Ret degenerate /\
     run adfuller (perform_adf_test series)
     = {| statistic := 0; pvalue := 1; critical_values := ∅; is_stationary := false |} /\
     calls adfuller (perform_adf_test series) = 0%nat) /\
  (forall series adfuller out,
     (10 <= length series)%nat ->
     adfuller (dropna series) = Some out ->
     let result := run adfuller (perform_adf_test series) in
     calls adfuller (perform_adf_test series) = 1%nat /\
     statistic result = adf_statistic out /\
     pvalue result = adf_pvalue out /\
     critical_values result = adf_critical out /\
     (is_stationary result = true <-> (pvalue result < 5 # 100)%Q)).
Proof.
  split.
  - intros series adfuller Hlen. unfold perform_adf_test.
    destruct (Nat.ltb_spec (length series) 10) as [_|]; [|lia].
    repeat split.
  - intros series adfuller out Hlen Hout result. subst result.
    unfold perform_adf_test.
    destruct (Nat.ltb_spec (length series) 10) as [|_]; [lia|].
    simpl. rewrite Hout. simpl. repeat split.
    + intros H. now apply ltb_lt.
    + intros H. now apply ltb_lt.
Qed.

(** When the external test raises, the result is the degenerate one. *)
Lemma perform_adf_test_raises series adfuller :
  adfuller (dropna series) = None ->
  run adfuller (perform_adf_test series) = degenerate.
Proof.
  intros H. unfold perform_adf_test.
  destruct (length series <? 10)%nat; [reflexivity|].
  simpl. now rewrite H.
Qed.

Lemma perform_adf_test_spec_witness :
  let series := (fun i => (Z.of_nat i, Fin (inject_Z (Z.of_nat i)))) <$> seq 0 12 in
  let adfuller := fun _ : list fnum =>
    Some (mkAdfOutput (-4) (1 # 100) {[ "5%" := (-29 # 10)%Q ]}) in
  (10 <= length series)%nat /\
  calls adfuller (perform_adf_test series) = 1%nat /\
  is_stationary (run adfuller (perform_adf_test series)) = true.
Proof.
  intros series adfuller.
  destruct (proj2 perform_adf_test_spec series adfuller
              (mkAdfOutput (-4) (1 # 100) {[ "5%" := (-29 # 10)%Q ]}))
    as (Hcalls & _ & Hp & _ & Hst).
  - vm_compute. lia.
  - reflexivity.
  - split; [vm_compute; lia|]. split; [exact Hcalls|].
    apply Hst. rewrite Hp. reflexivity.
Defined.

(** *** Indexes of the derived Series *)

Lemma compute_spread_index y x h :
  index (compute_spread y x h) = index_intersection (index y) (index x).
Proof.
  unfold compute_spread.
  set (common := index_intersection (index y) (index x)).
  assert (Hcommon : forall t, t ∈ common -> t ∈ index y /\ t ∈ index x).
  { intros t. apply index_intersection_elem. }
  rewrite (spread_rows y x h common Hcommon).
  apply index_omap_total. intros t Ht. destruct (Hcommon t Ht) as [H1 H2].
  apply series_get_Some in H1 as [a Ha]. apply series_get_Some in H2 as [b Hb].
  unfold spread_at. rewrite Ha, Hb. eauto.
Qed.

Lemma loc_index {V} (s : list (Z * V)) (idx : list Z) :
  (forall t, t ∈ idx -> t ∈ index s) -> index (loc s idx) = idx.
Proof.
  intros H. unfold loc. apply index_omap_total.
  intros t Ht. apply series_get_Some. now apply H.
Qed.

Lemma index_length {V} (s : list (Z * V)) : length (index s) = length s.
Proof. unfold index. apply length_fmap. Qed.

Lemma values_length {V} (s : list (Z * V)) : length (values s) = length s.
Proof. unfold values. apply length_fmap. Qed.

Lemma compute_z_score_index roll_mean roll_std (series : list (Z * Q)) window :
  index (compute_z_score roll_mean roll_std series window) = index series.
Proof.
  unfold compute_z_score.
  destruct (_ <? _)%nat.
  - unfold index. rewrite <- list_fmap_compose. reflexivity.
  - unfold index at 1. apply fst_zip.
    rewrite length_fmap, !length_zip_with, !length_fmap.
    unfold rolling_mean, rolling_std. rewrite !rolling_length.
    unfold index, values. rewrite !length_fmap. lia.
Qed.

Lemma last_value_zero {V} (zero : V) (idx : list Z) :
  last_value zero ((fun t => (t, zero)) <$> idx) = zero.
Proof.
  unfold last_value. rewrite fmap_last. now destruct (last idx).
Qed.

Lemma compute_z_score_short roll_mean roll_std (series : list (Z * Q)) (w : nat) :
  (length series < w)%nat ->
  compute_z_score roll_mean roll_std series (Some w)
  = (fun t => (t, Fin 0)) <$> index series.
Proof.
  intros H. unfold compute_z_score.
  change (default Config.Z_SCORE_WINDOW (Some w)) with w.
  destruct (Nat.ltb_spec (length series) w) as [_|]; [|lia].
  unfold index. rewrite <- list_fmap_compose. reflexivity.
Qed.

(** *** Rolling correlation *)

Lemma rolling2_lookup f window xs ys i v :
  rolling2 f window xs ys !! i = Some v ->
  v = match window_at xs window i, window_at ys window i with
      | Some wx, Some wy => f wx wy
      | _, _ => NaN
      end.
Proof.
  unfold rolling2. rewrite list_lookup_imap. intros H.
  apply fmap_Some in H as (x & _ & ->). reflexivity.
Qed.

Lemma compute_correlation_index corr (series1 series2 : list (Z * Q)) window :
  index (compute_correlation corr series1 series2 window)
  = index_intersection (index series1) (index series2).
Proof.
  unfold compute_correlation.
  set (common := index_intersection (index series1) (index series2)).
  destruct (_ <? _)%nat.
  - unfold index at 1. rewrite <- list_fmap_compose. apply list_fmap_id.
  - assert (Hidx : index (loc series1 common) = common).
    { apply loc_index. intros t Ht. now apply index_intersection_elem in Ht. }
    unfold index at 1. rewrite fst_zip; [exact Hidx|].
    rewrite length_fmap. unfold rolling2. rewrite length_imap.
    rewrite values_length, <- (index_length (loc series1 common)). lia.
Qed.

Lemma compute_correlation_short corr (series1 series2 : list (Z * Q)) (w : nat) :
  (length (index_intersection (index series1) (index series2)) < w)%nat ->
  compute_correlation corr series1 series2 (Some w)
  = (fun t => (t, Fin 0)) <$> index_intersection (index series1) (index series2).
Proof.
  intros H. unfold compute_correlation.
  change (default Config.CORRELATION_WINDOW (Some w)) with w.
  destruct (Nat.ltb_spec (length (index_intersection (index series1)
                                    (index series2))) w) as [_|]; [|lia].
  reflexivity.
Qed.

(** X14.  The rolling correlation is indexed by the timestamps common to
    both Series and has no NaN; it is 0 at every position with fewer than
    [window] observations, and everywhere when fewer than [window]
    timestamps are common. *)
Theorem compute_correlation_zero_fill :
  forall corr (series1 series2 : list (Z * Q)) (window : option nat),
    NoDup (index series1) -> NoDup (index series2) ->
    let w := default Config.CORRELATION_WINDOW window in
    let common := index_intersection (index series1) (index series2) in
    let c := compute_correlation corr series1 series2 window in
    index c = common /\
    Forall (fun r => r.2 <> NaN) c /\
    (forall i r, c !! i = Some r -> (i + 1 < w)%nat -> r.2 = Fin 0) /\
    ((length common < w)%nat -> Forall (fun r => r.2 = Fin 0) c).
Proof.
  intros corr s1 s2 window _ _ w common c. subst c. unfold compute_correlation.
  fold w. fold common.
  destruct (Nat.ltb_spec (length common) w) as [Hshort|Hlong].
  - assert (Hall : Forall (fun r : Z * fnum => r.2 = Fin 0)
                     ((fun t : Z => (t, Fin 0)) <$> common)).
    { apply Forall_fmap. apply Forall_forall. intros r _. reflexivity. }
    split; [|split; [|split]].
    + unfold index. rewrite <- list_fmap_compose. apply list_fmap_id.
    + eapply Forall_impl; [exact Hall|]. intros r ->. discriminate.
    + intros i r Hr _. eapply Forall_lookup_1 in Hall; eauto.
    + intros _. exact Hall.
  - assert (Hidx : index (loc s1 common) = common).
    { apply loc_index. intros t Ht. now apply index_intersection_elem in Ht. }
    assert (Hrow : forall i r,
              zip (index (loc s1 common))
                  (fillna0 <$> rolling2 corr w (values (loc s1 common))
                                         (values (loc s2 common))) !! i = Some r ->
              exists v, rolling2 corr w (values (loc s1 common))
                                 (values (loc s2 common)) !! i = Some v /\
                        r.2 = fillna0 v).
    { intros i r Hr. apply lookup_zip_with_Some in Hr as (t & q & -> & _ & Hq).
      rewrite list_lookup_fmap in Hq. apply fmap_Some in Hq as (v & Hv & ->).
      eauto. }
    split; [|split; [|split]].
    + unfold index at 1. rewrite fst_zip; [exact Hidx|].
      rewrite length_fmap. unfold rolling2. rewrite length_imap.
      rewrite values_length, <- (index_length (loc s1 common)). lia.
    + apply Forall_lookup. intros i r Hr.
      destruct (Hrow i r Hr) as (v & _ & ->). apply fillna0_not_nan.
    + intros i r Hr Hi. destruct (Hrow i r Hr) as (v & Hv & ->).
      apply rolling2_lookup in Hv as ->. unfold window_at.
      destruct (Nat.leb_spec w (i + 1)); [lia|]. reflexivity.
    + lia.
Qed.

Lemma compute_correlation_zero_fill_witness :
  NoDup (index flat_series) /\
  compute_correlation (fun _ _ => NaN) flat_series flat_series (Some 3%nat)
  = [(0, Fin 0); (1000000, Fin 0); (2000000, Fin 0); (3000000, Fin 0)] /\
  index (compute_correlation (fun _ _ => NaN) flat_series flat_series (Some 3%nat))
  = index_intersection (index flat_series) (index flat_series).
Proof.
  assert (H : NoDup (index flat_series)) by compute_done.
  split; [exact H|]. split; [vm_compute; reflexivity|].
  exact (proj1 (compute_correlation_zero_fill (fun _ _ => NaN)
                  flat_series flat_series (Some 3%nat) H H)).
Defined.

(** *** Hedge ratio *)

Lemma sum_zero (l : list Q) (a : Q) :
  (a == 0)%Q -> Forall (fun x => (x == 0)%Q) l -> (fold_left Qplus l a == 0)%Q.
Proof.
  revert a. induction l as [|x l IH]; simpl; intros a Ha Hl; [exact Ha|].
  inversion Hl; subst. apply IH; [lra|assumption].
Qed.

Lemma sum_constant (c : Q) (l : list Q) (a : Q) :
  Forall (fun x => (x == c)%Q) l ->
  (fold_left Qplus l a == a + inject_Z (Z.of_nat (length l)) * c)%Q.
Proof.
  revert a. induction l as [|x l IH]; intros a Hl.
  - simpl. ring.
  - inversion Hl as [|? ? Hx Hl']; subst. cbn [fold_left length].
    rewrite (IH _ Hl'), Hx, Nat2Z.inj_succ. unfold Z.succ.
    rewrite inject_Z_plus. ring.
Qed.

Lemma mean_constant (c : Q) (l : list Q) :
  l <> [] -> Forall (fun x => (x == c)%Q) l -> (mean l == c)%Q.
Proof.
  intros Hne Hl. unfold mean, Num.sum. rewrite (sum_constant c l 0 Hl).
  assert (Hn : ~ (inject_Z (Z.of_nat (length l)) == 0)%Q).
  { destruct l; [congruence|]. unfold Qeq. simpl. lia. }
  field. exact Hn.
Qed.

Lemma sum_sq_dev_constant (c : Q) (l : list Q) :
  Forall (fun x => (x == c)%Q) l -> (sum_sq_dev l == 0)%Q.
Proof.
  intros Hl. unfold sum_sq_dev, Num.sum.
  destruct l as [|x l]; [reflexivity|].
  pose proof (mean_constant c (x :: l) ltac:(discriminate) Hl) as Hm.
  apply sum_zero; [reflexivity|].
  apply Forall_fmap. eapply Forall_impl; [exact Hl|].
  intros v Hv. simpl. rewrite Hm, Hv. ring.
Qed.

Lemma sum_sq_dev_nonneg (l : list Q) : (0 <= sum_sq_dev l)%Q.
Proof.
  unfold sum_sq_dev, Num.sum. apply sum_nonneg; [apply Qle_refl|].
  apply squares_nonneg.
Qed.

Lemma sum_sq_diff_nonneg (a b : list Q) : (0 <= sum_sq_diff a b)%Q.
Proof.
  unfold sum_sq_diff, Num.sum. apply sum_nonneg; [apply Qle_refl|].
  apply Forall_fmap. apply Forall_forall. intros p _. apply Qsquare_nonneg.
Qed.

Lemma compute_hedge_ratio_few fit (y_series x_series : list (Z * Q)) method :
  (length (index_intersection (index y_series) (index x_series)) < 2)%nat ->
  compute_hedge_ratio fit y_series x_series method = (0, 0, 0)%Q.
Proof.
  intros Hfew. unfold compute_hedge_ratio. destruct (_ || _); [reflexivity|].
  destruct (Nat.ltb_spec (length (index_intersection (index y_series)
                                    (index x_series))) 2);
    [reflexivity|lia].
Qed.

(** X15.  [compute_hedge_ratio] gives (0, 0, 0), whatever the regression
    would return, when the two Series share fewer than two timestamps; it
    gives (0, 0, 0) as well when the regression of the chosen model raises on
    the aligned values, whatever it does on other data or for other
    models. *)
Theorem compute_hedge_ratio_degenerate :
  forall fit (y_series x_series : list (Z * Q)) (method : string),
    let common := index_intersection (index y_series) (index x_series) in
    ((length common < 2)%nat ->
     compute_hedge_ratio fit y_series x_series method = (0, 0, 0)%Q) /\
    (fit (model_name method) (values (loc x_series common))
         (values (loc y_series common)) = None ->
     compute_hedge_ratio fit y_series x_series method = (0, 0, 0)%Q).
Proof.
  intros fit y x method common. split.
  - apply compute_hedge_ratio_few.
  - intros Hraise. unfold compute_hedge_ratio. destruct (_ || _); [reflexivity|].
    destruct (_ <? 2)%nat; [reflexivity|]. fold common. now rewrite Hraise.
Qed.

(** A Huber regression that does not converge raises, while the least
    squares fit of the same data returns. *)
Example hedge_ratio_huber_raises :
  let fit := fun name (x _ : list Q) =>
               if String.eqb name "huber" then None
               else Some (mkFit 2 5 ((fun v => 2 * v + 5)%Q <$> x)) in
  let y := [(1, 7%Q); (2, 9%Q); (3, 11%Q)] in
  let x := [(1, 1%Q); (2, 2%Q); (3, 3%Q)] in
  compute_hedge_ratio fit y x "huber" = (0, 0, 0)%Q /\
  (compute_hedge_ratio fit y x "ols").1.1 = 2%Q.
Proof. vm_compute. split; reflexivity. Qed.

(** X16.  The r_squared of [compute_hedge_ratio] is at most 1 for every
    regression result, and it is 0 when the first Series is constant on the
    common timestamps (SS_tot = 0): the division by zero does not happen. *)
Theorem compute_hedge_ratio_r_squared :
  forall fit (y_series x_series : list (Z * Q)) (method : string),
    let common := index_intersection (index y_series) (index x_series) in
    ((compute_hedge_ratio fit y_series x_series method).1.2 <= 1)%Q /\
    (forall c, Forall (fun v => (v == c)%Q) (values (loc y_series common)) ->
       (compute_hedge_ratio fit y_series x_series method).1.2 = 0%Q).
Proof.
  intros fit y x method common. unfold compute_hedge_ratio. fold common.
  split.
  - destruct (_ || _); [simpl; lra|].
    destruct (_ <? 2)%nat; [simpl; lra|].
    destruct (fit _ _ _) as [model|]; [|simpl; lra].
    cbn [fst snd].
    destruct (Qeq_bool (sum_sq_dev (values (loc y common))) 0) eqn:E;
      cbn [negb]; [lra|].
    apply Qeq_bool_neq in E.
    pose proof (sum_sq_dev_nonneg (values (loc y common))) as Htot.
    pose proof (sum_sq_diff_nonneg (values (loc y common)) (predictions model)) as Hres.
    assert (Hpos : (0 < sum_sq_dev (values (loc y common)))%Q).
    { apply Qle_lteq in Htot as [Hlt|Heq]; [exact Hlt|]. exfalso. apply E.
      symmetry. exact Heq. }
    assert (Hdiv : (0 <= sum_sq_diff (values (loc y common)) (predictions model)
                         / sum_sq_dev (values (loc y common)))%Q).
    { apply Qle_shift_div_l; [exact Hpos|]. lra. }
    lra.
  - intros c Hconst. destruct (_ || _); [reflexivity|].
    destruct (_ <? 2)%nat; [reflexivity|].
    destruct (fit _ _ _) as [model|]; [|reflexivity].
    cbn [fst snd].
    pose proof (sum_sq_dev_constant c _ Hconst) as Hzero.
    apply Qeq_bool_iff in Hzero. rewrite Hzero. reflexivity.
Qed.

Example hedge_ratio_exact_fit :
  let r := compute_hedge_ratio
             (fun _ x _ => Some (mkFit 2 5 ((fun v => 2 * v + 5)%Q <$> x)))
             [(1, 7%Q); (2, 9%Q); (3, 11%Q)] [(1, 1%Q); (2, 2%Q); (3, 3%Q)] "ols" in
  r.1.1 = 2%Q /\ (r.1.2 == 1)%Q /\ r.2 = 5%Q.
Proof. vm_compute. repeat split. Qed.

(** *** The whole analysis of a pair *)

Lemma prices_index (df : list Resampler.OhlcvRow) :
  index ((fun r => (Resampler.bar_timestamp r, Resampler.close r)) <$> df)
  = Resampler.bar_timestamp <$> df.
Proof. unfold index. rewrite <- list_fmap_compose. reflexivity. Qed.

(** X17.  [compute_pair_analytics] returns the empty result and stores
    nothing when either frame is empty.  Otherwise it returns a result and
    (for frames with unique timestamps, as [get_ohlcv] reads them) appends
    exactly one row, for the pair "symbol1_symbol2" at the time of
    the call, which carries the result's hedge ratio, current spread, current
    z-score, current correlation, ADF statistic and p-value, spread mean and
    standard deviation; and the spread, the z-score and the correlation of
    the result are all indexed by the timestamps the two frames share. *)
Theorem compute_pair_analytics_snapshot :
  forall sqrtQ roll_mean roll_std corr fit adfuller now df1 df2
         symbol1 symbol2 timeframe window_size method table,
    let run := compute_pair_analytics sqrtQ roll_mean roll_std corr fit adfuller
                 now df1 df2 symbol1 symbol2 timeframe window_size method
                 table in
    (df1 = [] \/ df2 = [] -> run = (None, table)) /\
    (df1 <> [] -> df2 <> [] ->
     NoDup (Resampler.bar_timestamp <$> df1) ->
     NoDup (Resampler.bar_timestamp <$> df2) ->
     let common := index_intersection (Resampler.bar_timestamp <$> df1)
                                      (Resampler.bar_timestamp <$> df2) in
     exists result row,
       run = (Some result, table ++ [row]) /\
       index (pa_spread result) = common /\
       index (pa_z_score result) = common /\
       index (pa_correlation result) = common /\
       ar_symbol_pair row = (symbol1 ++ "_" ++ symbol2)%string /\
       ar_timestamp row = now /\ ar_timeframe row = timeframe /\
       ar_hedge_ratio row = pa_hedge_ratio result /\
       ar_spread row = pa_spread_current result /\
       ar_z_score row = pa_current_z_score result /\
       ar_correlation row = pa_current_correlation result /\
       ar_adf_statistic row = statistic (pa_adf_test result) /\
       ar_adf_pvalue row = pvalue (pa_adf_test result) /\
       ar_spread_mean row = pa_spread_mean result /\
       ar_spread_std row = pa_spread_std result).
Proof.
  intros sqrtQ roll_mean roll_std corr fit adfuller now df1 df2 s1 s2 tf ws
    method table run.
  subst run. split.
  - intros [-> | ->]; [reflexivity|]. now destruct df1.
  - intros H1 H2 _ _ common.
    destruct df1 as [|b1 df1]; [congruence|].
    destruct df2 as [|b2 df2]; [congruence|].
    unfold compute_pair_analytics.
    eexists _, _. split; [reflexivity|].
    cbn [pa_spread pa_z_score pa_correlation pa_hedge_ratio pa_spread_current
         pa_current_z_score pa_current_correlation pa_adf_test pa_spread_mean
         pa_spread_std ar_symbol_pair ar_timestamp ar_timeframe ar_hedge_ratio
         ar_spread ar_z_score ar_correlation ar_adf_statistic ar_adf_pvalue
         ar_spread_mean ar_spread_std].
    rewrite compute_z_score_index, compute_spread_index,
      compute_correlation_index, !prices_index.
    repeat split.
Qed.

(** X18.  With too few shared timestamps the analysis (of frames with
    unique timestamps) degrades instead of failing: below the window size
    the current z-score and the current correlation are 0; below 10 the
    stationarity result is the degenerate
    one and the test is not consulted; below 2 hedge ratio, r_squared and
    intercept are 0; with none the spread is empty, its current value is 0,
    and its mean and standard deviation are NaN. *)
Theorem compute_pair_analytics_insufficient :
  forall sqrtQ roll_mean roll_std corr fit adfuller now df1 df2
         symbol1 symbol2 timeframe window_size method table result,
    NoDup (Resampler.bar_timestamp <$> df1) ->
    NoDup (Resampler.bar_timestamp <$> df2) ->
    (compute_pair_analytics sqrtQ roll_mean roll_std corr fit adfuller now df1 df2
       symbol1 symbol2 timeframe window_size method table).1 = Some result ->
    let n := length (index_intersection (Resampler.bar_timestamp <$> df1)
                                        (Resampler.bar_timestamp <$> df2)) in
    let w := default Config.DEFAULT_WINDOW_SIZE window_size in
    ((n < w)%nat ->
     pa_current_z_score result = Fin 0 /\ pa_current_correlation result = Fin 0) /\
    ((n < 10)%nat -> pa_adf_test result = degenerate) /\
    ((n < 2)%nat ->
     pa_hedge_ratio result = 0%Q /\ pa_r_squared result = 0%Q /\
     pa_intercept result = 0%Q) /\
    (n = 0%nat ->
     pa_spread result = [] /\ pa_spread_current result = 0%Q /\
     pa_spread_mean result = NaN /\ pa_spread_std result = NaN).
Proof.
  intros sqrtQ roll_mean roll_std corr fit adfuller now df1 df2 s1 s2 tf ws
    method table result
         _ _ Hrun n w.
  destruct df1 as [|b1 df1]; [discriminate|].
  destruct df2 as [|b2 df2]; [discriminate|].
  unfold compute_pair_analytics in Hrun.
  set (prices1 := (fun r => (Resampler.bar_timestamp r, Resampler.close r))
                    <$> b1 :: df1) in *.
  set (prices2 := (fun r => (Resampler.bar_timestamp r, Resampler.close r))
                    <$> b2 :: df2) in *.
  assert (Hp1 : index prices1 = Resampler.bar_timestamp <$> b1 :: df1)
    by apply prices_index.
  assert (Hp2 : index prices2 = Resampler.bar_timestamp <$> b2 :: df2)
    by apply prices_index.
  clearbody prices1 prices2.
  cbn [fst] in Hrun. injection Hrun as <-.
  cbn [pa_spread pa_z_score pa_correlation pa_hedge_ratio pa_r_squared
       pa_intercept pa_spread_current pa_current_z_score pa_current_correlation
       pa_adf_test pa_spread_mean pa_spread_std].
  set (h := (compute_hedge_ratio fit prices1 prices2 method).1.1).
  assert (Hlen : length (compute_spread prices1 prices2 h) = n).
  { rewrite <- index_length, compute_spread_index, Hp1, Hp2. reflexivity. }
  assert (Hn : length (index_intersection (index prices1) (index prices2)) = n).
  { rewrite Hp1, Hp2. reflexivity. }
  fold w. split; [|split; [|split]].
  - intros Hw. split.
    + rewrite compute_z_score_short by lia. apply last_value_zero.
    + rewrite compute_correlation_short by lia. apply last_value_zero.
  - intros H10. unfold perform_adf_test. rewrite length_fmap, Hlen.
    destruct (Nat.ltb_spec n 10); [reflexivity|lia].
  - intros H2. subst h. rewrite compute_hedge_ratio_few by lia. auto.
  - intros H0. rewrite H0 in Hlen.
    destruct (compute_spread prices1 prices2 h); [|discriminate].
    repeat split.
Qed.

Lemma compute_pair_analytics_insufficient_witness :
  let run :=
    compute_pair_analytics Qsqrt_up mean exact_std (fun _ _ => NaN)
      (fun _ _ _ => None)
      (fun _ => None) 1700000100000000
      [ Resampler.mkOhlcvRow 1700000000000000 10 11 9 9 4 ]
      [ Resampler.mkOhlcvRow 1700000001000000 20 21 19 19 2 ]
      "a" "b" "1s" None "ols" [] in
  (exists result, run.1 = Some result /\
     pa_spread result = [] /\ pa_spread_mean result = NaN /\
     pa_adf_test result = degenerate) /\
  ar_symbol_pair <$> run.2 = [ "a_b"%string ].
Proof.
  cbv zeta. split; [|vm_compute; reflexivity].
  eexists. split; [reflexivity|].
  destruct (compute_pair_analytics_insufficient Qsqrt_up mean exact_std
              (fun _ _ => NaN)
              (fun _ _ _ => None) (fun _ => None) 1700000100000000
              [ Resampler.mkOhlcvRow 1700000000000000 10 11 9 9 4 ]
              [ Resampler.mkOhlcvRow 1700000001000000 20 21 19 19 2 ]
              "a" "b" "1s" None "ols" [] _ ltac:(compute_done)
              ltac:(compute_done) eq_refl)
    as (_ & Hadf & _ & Hnone).
  destruct Hnone as (Hs & _ & Hm & _); [vm_compute; reflexivity|].
  split; [exact Hs|]. split; [exact Hm|].
  apply Hadf. vm_compute. lia.
Defined.

End AnalyticsSpec.

Module PySpec.

Lemma keep_last_short {A} (n : nat) (l : list A) :
  (length l <= n)%nat -> Py.keep_last n l = l.
Proof.
  intros H. unfold Py.keep_last.
  replace (length l - n)%nat with 0%nat by lia. reflexivity.
Qed.

Lemma keep_last_length {A} (n : nat) (l : list A) :
  length (Py.keep_last n l) = Nat.min n (length l).
Proof. unfold Py.keep_last. rewrite length_drop. lia. Qed.

Lemma keep_last_app {A} (n : nat) (l k : list A) :
  Py.keep_last n (Py.keep_last n l ++ k) = Py.keep_last n (l ++ k).
Proof.
  destruct (Nat.le_gt_cases (length l) n) as [Hle|Hgt].
  - now rewrite (keep_last_short n l Hle).
  - unfold Py.keep_last. rewrite !length_app, length_drop.
    replace (length l - (length l - n) + length k - n)%nat with (length k) by lia.
    replace (length l + length k - n)%nat
      with ((length l - n) + length k)%nat by lia.
    rewrite <- (drop_drop (l ++ k) (length k) (length l - n)).
    rewrite (drop_app_le l k (length l - n)) by lia. reflexivity.
Qed.

(** [l[-n:]] for a positive [n]. *)
Lemma slice_from_last {A} (n : nat) (l : list A) :
  (1 <= n)%nat -> Py.slice_from (- Z.of_nat n) l = Py.keep_last n l.
Proof.
  intros Hn. unfold Py.slice_from, Py.keep_last.
  destruct (Z.ltb_spec (- Z.of_nat n) 0) as [_|]; [|lia].
  f_equal. lia.
Qed.

End PySpec.

Module WebsocketClientSpec.
Import Database WebsocketClient PySpec.

(** *** Which ticks reach the tick table *)

Lemma deque_append_length {A} (d : list A) (x : A) :
  (length d <= maxlen)%nat ->
  length (deque_append d x) = Nat.min (S (length d)) maxlen.
Proof.
  unfold deque_append, maxlen. intros Hd.
  destruct (Nat.ltb_spec (length d) 1000).
  - rewrite length_app. simpl. lia.
  - rewrite length_app, length_drop. simpl. lia.
Qed.

Lemma fromtimestamp_Some T t : fromtimestamp T = Some t -> t = T * 1000.
Proof.
  unfold fromtimestamp. destruct (_ && _); [|discriminate]. congruence.
Qed.

Lemma fromtimestamp_in_range T : in_range T -> fromtimestamp T = Some (T * 1000).
Proof.
  unfold in_range, fromtimestamp, min_T, max_T. intros H.
  destruct (Z.leb_spec (-62135596800000) T); [|lia].
  destruct (Z.leb_spec T 253402300799999); [reflexivity|lia].
Qed.

(** A trade whose time stamp does not convert changes nothing. *)
Lemma on_message_dropped c m :
  fromtimestamp (msg_T m) = None -> _on_message c m = c.
Proof. intros H. unfold _on_message. now rewrite H. Qed.

(** A trade for a symbol without a buffer changes nothing. *)
Lemma on_message_unknown_symbol c m :
  tick_buffer c !! Py.lower (msg_s m) = None -> _on_message c m = c.
Proof.
  intros H. unfold _on_message. destruct (fromtimestamp _); [|reflexivity].
  rewrite H. cbv beta iota. rewrite H. destruct c; reflexivity.
Qed.

(** The tick is stored when the buffer length after the append is a
    multiple of 10. *)
Lemma on_message_table c m d :
  is_Some (fromtimestamp (msg_T m)) ->
  tick_buffer c !! Py.lower (msg_s m) = Some d ->
  let symbol := Py.lower (msg_s m) in
  let tick := mkTick symbol (msg_T m * 1000) (msg_p m) (msg_q m) in
  tick_buffer (_on_message c m) !! symbol = Some (deque_append d tick) /\
  tick_table (_on_message c m)
  = if (length (deque_append d tick) mod 10 =? 0)%nat
    then _save_to_db symbol tick (tick_table c)
    else tick_table c.
Proof.
  intros [t Ht] H symbol tick. unfold _on_message. subst symbol tick.
  rewrite Ht. apply fromtimestamp_Some in Ht as ->.
  rewrite H. cbv beta iota zeta. rewrite lookup_insert_eq.
  destruct (length (deque_append d _) mod 10 =? 0)%nat; cbn [tick_buffer tick_table];
    rewrite lookup_insert_eq; split; reflexivity.
Qed.

(** While the buffer fills up, every 10th tick of the symbol is stored. *)
Lemma on_message_filling c m d :
  is_Some (fromtimestamp (msg_T m)) ->
  tick_buffer c !! Py.lower (msg_s m) = Some d ->
  (length d < maxlen)%nat ->
  let symbol := Py.lower (msg_s m) in
  let tick := mkTick symbol (msg_T m * 1000) (msg_p m) (msg_q m) in
  tick_table (_on_message c m)
  = if (S (length d) mod 10 =? 0)%nat
    then _save_to_db symbol tick (tick_table c)
    else tick_table c.
Proof.
  intros HT H Hlen symbol tick.
  destruct (on_message_table c m d HT H) as [_ ->]. subst symbol tick.
  rewrite deque_append_length by lia.
  replace (Nat.min (S (length d)) maxlen) with (S (length d)) by lia.
  reflexivity.
Qed.

(** Once the buffer holds 1000 ticks it stays at 1000, and every tick of
    the symbol is stored. *)
Lemma on_message_full c m d :
  is_Some (fromtimestamp (msg_T m)) ->
  tick_buffer c !! Py.lower (msg_s m) = Some d ->
  length d = maxlen ->
  let symbol := Py.lower (msg_s m) in
  let tick := mkTick symbol (msg_T m * 1000) (msg_p m) (msg_q m) in
  tick_table (_on_message c m) = _save_to_db symbol tick (tick_table c) /\
  exists d', tick_buffer (_on_message c m) !! symbol = Some d' /\ length d' = maxlen.
Proof.
  intros HT H Hlen symbol tick.
  destruct (on_message_table c m d HT H) as [Hbuf ->].
  assert (Hl : length (deque_append d tick) = maxlen).
  { rewrite deque_append_length by lia. lia. }
  subst symbol tick. rewrite Hl. split; [reflexivity|]. eauto.
Qed.

(** C5, evaluated.  Of the first 1000 trades of a symbol every 10th is
    stored (100 rows); the buffer is then full, and each of the trades
    1001, 1002 and 1003 is stored, although none of them is the 10th since
    the last stored one. *)
Theorem on_message_stores_every_tick_once_full :
  let c := feed "BTCUSDT" 1 1000 (init ["btcusdt"%string]) in
  td_price <$> take 3 (tick_table c) = [ 10%Q; 20%Q; 30%Q ] /\
  length (tick_table c) = 100%nat /\
  td_price <$> drop 100 (tick_table (feed "BTCUSDT" 1001 3 c))
  = [ 1001%Q; 1002%Q; 1003%Q ].
Proof. vm_compute. repeat split. Qed.

(** *** Recent ticks *)

Lemma get_recent_ticks_unknown c symbol limit :
  tick_buffer c !! Py.lower symbol = None ->
  get_recent_ticks c symbol limit = [].
Proof. intros H. unfold get_recent_ticks. now rewrite H. Qed.

(** For a limit of at least 1 the result is the last [limit] buffered
    ticks, in buffer order. *)
Lemma get_recent_ticks_positive c symbol limit d :
  tick_buffer c !! Py.lower symbol = Some d ->
  0 < limit ->
  get_recent_ticks c symbol limit = drop (length d - Z.to_nat limit) d /\
  Z.of_nat (length (get_recent_ticks c symbol limit)) <= limit.
Proof.
  intros H Hlimit. unfold get_recent_ticks. rewrite H.
  unfold Py.slice_from.
  destruct (Z.ltb_spec (- limit) 0) as [_|]; [|lia].
  assert (E : Z.to_nat (Z.max (- limit + Z.of_nat (length d)) 0)
              = (length d - Z.to_nat limit)%nat) by lia.
  rewrite E. split; [reflexivity|]. rewrite length_drop. lia.
Qed.

(** A limit of 0 returns the whole buffer. *)
Lemma get_recent_ticks_zero c symbol d :
  tick_buffer c !! Py.lower symbol = Some d ->
  get_recent_ticks c symbol 0 = d.
Proof.
  intros H. unfold get_recent_ticks. rewrite H.
  unfold Py.slice_from. simpl. destruct (length d); reflexivity.
Qed.

(** C9, evaluated.  With three ticks buffered, a limit of 0 returns all
    three; a limit of 2 returns the last two. *)
Theorem get_recent_ticks_limit_zero :
  let c := feed "BTCUSDT" 1 3 (init ["btcusdt"%string]) in
  tick_price <$> get_recent_ticks c "BTCUSDT" 0 = [ 1%Q; 2%Q; 3%Q ] /\
  tick_price <$> get_recent_ticks c "BTCUSDT" 2 = [ 2%Q; 3%Q ] /\
  get_recent_ticks c "ETHUSDT" 2 = [].
Proof. vm_compute. repeat split. Qed.

(** *** The buffers as sliding windows *)

Lemma deque_append_keep_last {A} (d : list A) (x : A) :
  (length d <= maxlen)%nat ->
  deque_append d x = Py.keep_last maxlen (d ++ [x]).
Proof.
  intros Hd. unfold deque_append, Py.keep_last.
  rewrite length_app. simpl.
  destruct (Nat.ltb_spec (length d) maxlen) as [Hlt|Hge].
  - replace (length d + 1 - maxlen)%nat with 0%nat by lia. reflexivity.
  - replace (length d + 1 - maxlen)%nat with 1%nat by lia.
    rewrite drop_app_le by (unfold maxlen in *; lia). reflexivity.
Qed.

(** A trade leaves the buffers of the other symbols as they are. *)
Lemma on_message_other_buffer c m s :
  s <> Py.lower (msg_s m) ->
  tick_buffer (_on_message c m) !! s = tick_buffer c !! s.
Proof.
  intros Hs. unfold _on_message. destruct (fromtimestamp _); [|reflexivity].
  destruct (tick_buffer c !! Py.lower (msg_s m)) as [d|] eqn:E.
  - cbv beta iota zeta. rewrite lookup_insert_eq.
    destruct (_ =? 0)%nat; cbn [tick_buffer];
      now rewrite lookup_insert_ne by congruence.
  - cbv beta iota zeta. rewrite E. reflexivity.
Qed.

Lemma on_message_own_buffer c m d :
  is_Some (fromtimestamp (msg_T m)) ->
  tick_buffer c !! Py.lower (msg_s m) = Some d ->
  tick_buffer (_on_message c m) !! Py.lower (msg_s m)
  = Some (deque_append d (tick_of m)).
Proof. intros HT H. apply (on_message_table c m d HT H). Qed.

(** X1.  Through any stream of trades whose time stamps, for the symbol
    looked at, lie in the years every platform converts, the buffer of a
    subscribed symbol holds the last 1000 ticks of that symbol (all of them
    while there are fewer), in arrival order; trades of other symbols,
    whatever their time stamps, do not disturb it. *)
Theorem buffer_holds_last_ticks :
  forall trades c s d,
    Forall (fun m => Py.lower (msg_s m) = s -> in_range (msg_T m)) trades ->
    tick_buffer c !! s = Some d -> (length d <= maxlen)%nat ->
    tick_buffer (fold_left _on_message trades c) !! s
    = Some (Py.keep_last maxlen
              (d ++ (tick_of <$> filter (fun m => Py.lower (msg_s m) = s) trades))).
Proof.
  induction trades as [|m trades IH]; intros c s d HT Hd Hlen.
  - simpl. rewrite app_nil_r. now rewrite keep_last_short.
  - inversion HT as [|? ? Hm HT']; subst.
    cbn [fold_left]. destruct (decide (Py.lower (msg_s m) = s)) as [Hs|Hs].
    + rewrite filter_cons_True by exact Hs.
      assert (Hconv : is_Some (fromtimestamp (msg_T m))).
      { rewrite (fromtimestamp_in_range _ (Hm Hs)). eauto. }
      subst s.
      rewrite (IH (_on_message c m) _ (deque_append d (tick_of m))).
      * rewrite deque_append_keep_last by exact Hlen.
        rewrite keep_last_app. rewrite fmap_cons, <- app_assoc. reflexivity.
      * exact HT'.
      * now apply on_message_own_buffer.
      * rewrite deque_append_length by exact Hlen. lia.
    + rewrite filter_cons_False by exact Hs.
      apply IH; [exact HT'| |exact Hlen].
      rewrite on_message_other_buffer by congruence. exact Hd.
Qed.

Lemma buffer_holds_last_ticks_witness :
  Forall (fun m => Py.lower (msg_s m) = "btcusdt"%string -> in_range (msg_T m))
    [ trade "BTCUSDT" 1; trade "ETHUSDT" 2; trade "btcusdt" 3 ] /\
  tick_buffer (fold_left _on_message
                 [ trade "BTCUSDT" 1; trade "ETHUSDT" 2; trade "btcusdt" 3 ]
                 (init ["btcusdt"%string; "ethusdt"%string])) !! "btcusdt"%string
  = Some (Py.keep_last maxlen
            ([] ++ (tick_of <$> filter (fun m => Py.lower (msg_s m) = "btcusdt"%string)
                      [ trade "BTCUSDT" 1; trade "ETHUSDT" 2; trade "btcusdt" 3 ]))).
Proof.
  assert (H : Forall (fun m => Py.lower (msg_s m) = "btcusdt"%string ->
                              in_range (msg_T m))
                [ trade "BTCUSDT" 1; trade "ETHUSDT" 2; trade "btcusdt" 3 ]).
  { constructor; [|constructor; [|constructor; [|constructor]]];
      intros _; unfold in_range; simpl; lia. }
  split; [exact H|].
  apply (buffer_holds_last_ticks _ (init ["btcusdt"%string; "ethusdt"%string])).
  - exact H.
  - vm_compute. reflexivity.
  - simpl. unfold maxlen. lia.
Defined.

(** A trade dated beyond the year 9999 is dropped: the buffer and the
    latest price stay as they were. *)
Example on_message_out_of_range :
  let c := feed "BTCUSDT" 1 9 (init ["btcusdt"%string]) in
  let late := mkTrade "BTCUSDT" 10 1 (10 ^ 18) in
  _on_message c late = c /\ get_latest_price (_on_message c late) "BTCUSDT" = 9%Q.
Proof. vm_compute. split; reflexivity. Qed.

(** X2.  After a trade for a subscribed symbol whose time stamp lies in the
    years every platform converts, [get_latest_price] of the trade's symbol
    is the price of the trade; the latest price of every other symbol is
    what it was, whatever the time stamp; a symbol without a buffer has
    latest price 0. *)
Theorem get_latest_price_after_message :
  forall c m symbol,
    (is_Some (tick_buffer c !! Py.lower (msg_s m)) -> in_range (msg_T m) ->
     get_latest_price (_on_message c m) (msg_s m) = msg_p m) /\
    (Py.lower symbol <> Py.lower (msg_s m) ->
     get_latest_price (_on_message c m) symbol = get_latest_price c symbol) /\
    (tick_buffer c !! Py.lower symbol = None -> get_latest_price c symbol = 0%Q).
Proof.
  intros c m symbol. split; [|split].
  - intros [d Hd] HT. unfold get_latest_price.
    rewrite (on_message_own_buffer c m d); [|rewrite fromtimestamp_in_range; eauto|exact Hd].
    unfold deque_append. destruct (_ <? _)%nat; now rewrite last_snoc.
  - intros Hne. unfold get_latest_price.
    now rewrite on_message_other_buffer.
  - intros H. unfold get_latest_price. now rewrite H.
Qed.

Lemma on_message_row c m :
  exists added,
    tick_table (_on_message c m) = tick_table c ++ added /\
    (added = [] \/
     (added = [row_of m] /\ is_Some (tick_buffer c !! Py.lower (msg_s m)))).
Proof.
  destruct (fromtimestamp (msg_T m)) as [t|] eqn:ET;
    [|rewrite on_message_dropped by exact ET; exists []; rewrite app_nil_r; auto].
  destruct (tick_buffer c !! Py.lower (msg_s m)) as [d|] eqn:E.
  - destruct (on_message_table c m d (ltac:(eauto)) E) as [_ Ht].
    cbv zeta in Ht. rewrite Ht.
    destruct (_ =? 0)%nat.
    + exists [row_of m]. split; [reflexivity|]. right. split; [reflexivity|eauto].
    + exists []. rewrite app_nil_r. auto.
  - rewrite on_message_unknown_symbol by exact E.
    exists []. rewrite app_nil_r. auto.
Qed.

Lemma on_message_subscribed c m s :
  is_Some (tick_buffer (_on_message c m) !! s) <-> is_Some (tick_buffer c !! s).
Proof.
  destruct (decide (s = Py.lower (msg_s m))) as [->|Hne].
  - destruct (fromtimestamp (msg_T m)) as [t|] eqn:ET;
      [|now rewrite on_message_dropped by exact ET].
    destruct (tick_buffer c !! Py.lower (msg_s m)) as [d|] eqn:E.
    + rewrite (on_message_own_buffer c m d (ltac:(eauto)) E). split; eauto.
    + rewrite on_message_unknown_symbol by exact E. now rewrite E.
  - now rewrite on_message_other_buffer.
Qed.

(** X3.  The tick table only grows: a stream of trades leaves the stored
    rows in place and appends at most one row per trade, each the row of a
    trade of the stream for a subscribed symbol. *)
Theorem tick_table_append_only :
  forall trades c,
    exists added,
      tick_table (fold_left _on_message trades c) = tick_table c ++ added /\
      (length added <= length trades)%nat /\
      Forall (fun r => exists m, m ∈ trades /\ r = row_of m /\
                         is_Some (tick_buffer c !! Py.lower (msg_s m))) added.
Proof.
  induction trades as [|m trades IH]; intros c.
  - exists []. rewrite app_nil_r. repeat split; [simpl; lia|constructor].
  - cbn [fold_left].
    destruct (IH (_on_message c m)) as (added' & Heq & Hlen & Hall).
    destruct (on_message_row c m) as (added & Hrow & Hcase).
    exists (added ++ added'). rewrite Heq, Hrow, <- app_assoc.
    split; [reflexivity|]. split.
    + rewrite length_app. simpl.
      destruct Hcase as [->|[-> _]]; simpl; lia.
    + apply Forall_app. split.
      * destruct Hcase as [->|[-> Hsub]]; [constructor|].
        repeat constructor. exists m. split; [left|]. split; [reflexivity|exact Hsub].
      * eapply Forall_impl; [exact Hall|]. simpl.
        intros r (m' & Hm' & -> & Hsub). exists m'.
        split; [now right|]. split; [reflexivity|].
        now apply on_message_subscribed in Hsub.
Qed.

End WebsocketClientSpec.

Module AlertsSpec.
Import Py Alerts NumSpec PySpec.

(** *** Conditions *)

(** C7.  A disabled alert never matches.  For an enabled alert, 'greater'
    holds exactly for value > threshold, 'less' for value < threshold,
    'greater_equal' for value >= threshold, 'less_equal' for value <=
    threshold, and 'equal' for |value - threshold| < 0.001.  With threshold
    2.0, 'greater' matches 2.0001 and does not match 2.0. *)
Theorem check_conditions :
  (forall a value, enabled a = false -> check a value = false) /\
  (forall a value, enabled a = true ->
     (condition a = "greater"%string ->
        (check a value = true <-> (threshold a < value)%Q)) /\
     (condition a = "less"%string ->
        (check a value = true <-> (value < threshold a)%Q)) /\
     (condition a = "greater_equal"%string ->
        (check a value = true <-> (threshold a <= value)%Q)) /\
     (condition a = "less_equal"%string ->
        (check a value = true <-> (value <= threshold a)%Q)) /\
     (condition a = "equal"%string ->
        (check a value = true <-> (Qabs (value - threshold a) < 1 # 1000)%Q))) /\
  check (new_alert "High Z-Score" "greater" "current_z_score" 2 "a_b" true)
        (20001 # 10000) = true /\
  check (new_alert "High Z-Score" "greater" "current_z_score" 2 "a_b" true)
        2 = false.
Proof.
  split; [|split; [|split; reflexivity]].
  - intros a value Hoff. unfold check. now rewrite Hoff.
  - intros a value Hon. unfold check. rewrite Hon. cbn [negb].
    split; [|split; [|split; [|split]]]; intros Hc; rewrite Hc;
      cbv [String.eqb Ascii.eqb Bool.eqb];
      first [apply ltb_lt | apply leb_le].
Qed.

Lemma check_conditions_witness :
  enabled test_alert = true /\
  condition test_alert = "greater"%string /\
  (check test_alert (25 # 10) = true <-> (threshold test_alert < 25 # 10)%Q).
Proof.
  split; [reflexivity|]. split; [reflexivity|].
  apply (proj1 (proj1 (proj2 check_conditions) test_alert (25 # 10) eq_refl)).
  reflexivity.
Defined.

(** *** Updating an alert *)

Lemma is_data_attr_cases key :
  is_data_attr key = true ->
  key = "name"%string \/ key = "condition"%string \/ key = "metric"%string \/
  key = "threshold"%string \/ key = "symbol_pair"%string \/
  key = "enabled"%string \/ key = "triggered_count"%string \/
  key = "last_triggered"%string.
Proof.
  unfold is_data_attr, data_attrs. intros H. apply bool_decide_eq_true in H.
  repeat (apply elem_of_cons in H as [H|H]; [tauto|]). inversion H.
Qed.

(** Setting one attribute writes it and leaves the seven others. *)
Lemma setattr_getattr a k v a1 key :
  setattr a k v = Some a1 ->
  is_data_attr k = true -> is_data_attr key = true ->
  getattr a1 key = if String.eqb k key then Some v else getattr a key.
Proof.
  intros Hset Hk Hkey.
  apply is_data_attr_cases in Hk. apply is_data_attr_cases in Hkey.
  destruct Hk as [->|[->|[->|[->|[->|[->|[->| ->]]]]]]];
    destruct v; try discriminate Hset; injection Hset as <-;
    destruct Hkey as [->|[->|[->|[->|[->|[->|[->| ->]]]]]]];
    reflexivity.
Qed.

Lemma apply_kwargs_getattr kwargs : forall a a' key,
  apply_kwargs a kwargs = Some a' ->
  is_data_attr key = true ->
  getattr a' key = match assigned kwargs key with
                   | Some v => Some v
                   | None => getattr a key
                   end.
Proof.
  induction kwargs as [|[k v] rest IH]; intros a a' key Happ Hkey.
  - injection Happ as <-. reflexivity.
  - cbn [apply_kwargs assigned] in *.
    destruct (is_data_attr k) eqn:Ek.
    + destruct (setattr a k v) as [a1|] eqn:Eset; [|discriminate].
      rewrite (IH a1 a' key Happ Hkey).
      destruct (assigned rest key); [reflexivity|].
      rewrite (setattr_getattr a k v a1 key Eset Ek Hkey).
      destruct (String.eqb k key); reflexivity.
    + destruct (is_class_attr k); [discriminate|].
      rewrite (IH a a' key Happ Hkey).
      destruct (assigned rest key); [reflexivity|].
      destruct (String.eqb_spec k key) as [->|_]; [congruence|reflexivity].
Qed.

(** On a request of typed values, [update_alert] sets every named field
    that is a data attribute of the alert, passes over a field that is no
    attribute, and changes nothing else: the other alerts, the list of
    alerts, the history, the callbacks.  With no alert of that name nothing
    changes. *)
Lemma update_alert_typed_request :
  forall m alert_name kwargs m',
    update_alert m alert_name kwargs = Some m' ->
    alerts m' = alerts m /\ alert_history m' = alert_history m /\
    callbacks m' = callbacks m /\ invoked m' = invoked m /\
    match get_alert m alert_name with
    | None => m' = m
    | Some (l, a) =>
        (forall l', l' <> l -> heap m' !! l' = heap m !! l') /\
        exists a', heap m' !! l = Some a' /\
          forall key, is_data_attr key = true ->
            getattr a' key = match assigned kwargs key with
                             | Some v => Some v
                             | None => getattr a key
                             end
    end.
Proof.
  intros m alert_name kwargs m' Hupd. unfold update_alert in Hupd.
  destruct (names_parameter kwargs); [discriminate|].
  destruct (get_alert m alert_name) as [[l a]|].
  - destruct (apply_kwargs a kwargs) as [a'|] eqn:Happ; [|discriminate].
    injection Hupd as <-. cbn [alerts alert_history callbacks invoked heap].
    repeat (split; [reflexivity|]). split.
    + intros l' Hne. now apply lookup_insert_ne.
    + exists a'. split; [apply lookup_insert_eq|].
      intros key Hkey. now apply apply_kwargs_getattr.
  - injection Hupd as <-. repeat (split; [reflexivity|]). reflexivity.
Qed.


(** *** Checking alerts *)

Lemma not_firing_fires data a : not_firing data a -> fires data a = false.
Proof.
  unfold fires, check_py.
  intros [H|[H|[(pd & Hpd & [H|H])|(pd & v & q & Hpd & Hv & Hq & Hc)]]].
  - now rewrite H.
  - rewrite H. apply andb_false_r.
  - rewrite Hpd, H. apply andb_false_r.
  - rewrite Hpd, H. apply andb_false_r.
  - rewrite Hpd, Hv.
    destruct v; try discriminate Hq; rewrite Hq;
      (destruct (_ && _ && overflows _); [|rewrite Hc]; apply andb_false_r).
Qed.

Lemma same_rule_refl a : same_rule a a.
Proof. unfold same_rule. tauto. Qed.

Lemma same_rule_trigger a a' t : same_rule a a' -> same_rule a (trigger t a').
Proof. unfold same_rule. simpl. tauto. Qed.

Lemma same_rule_fires data a a' :
  same_rule a a' -> fires data a' = fires data a.
Proof.
  destruct a, a'. unfold same_rule. simpl.
  intros (-> & -> & -> & -> & -> & ->). reflexivity.
Qed.

Lemma same_rule_event a a' e : same_rule a a' -> event_of a' e -> event_of a e.
Proof.
  unfold same_rule, event_of.
  intros (-> & -> & -> & -> & -> & _). tauto.
Qed.

(** The round of an alert that does not trigger leaves the whole state of
    the manager as it was: no field of any alert, no event, no call. *)
Lemma check_alert_not_firing now data m l a :
  heap m !! l = Some a -> fires data a = false ->
  (check_alert now data m l).1 = m.
Proof.
  intros Hl Hf. unfold check_alert, fires in *. rewrite Hl.
  destruct (enabled a); [|reflexivity]. simpl in *.
  destruct (data !! symbol_pair a) as [pd|]; [|reflexivity].
  destruct (pd !! metric a) as [v|]; [|reflexivity].
  destruct v; try reflexivity;
    (destruct (check_py a _) as [[|]|]; [discriminate|reflexivity|reflexivity]).
Qed.

Lemma check_alert_firing now data m l a :
  heap m !! l = Some a -> fires data a = true ->
  exists v, check_alert now data m l = (fire now m l a v, Fired).
Proof.
  intros Hl Hf. unfold check_alert, fires in *. rewrite Hl.
  destruct (enabled a); [|discriminate]. simpl in *.
  destruct (data !! symbol_pair a) as [pd|]; [|discriminate].
  destruct (pd !! metric a) as [v|]; [|discriminate].
  exists v.
  destruct v; try discriminate;
    (destruct (check_py a _) as [[|]|]; [reflexivity|discriminate|discriminate]).
Qed.

Lemma fire_event_of now m l a v e :
  e ∈ alert_history (fire now m l a v) ->
  e ∈ alert_history m \/ event_of a e.
Proof.
  unfold fire. cbn [alert_history].
  set (ev := mkAlertEvent _ _ _ _ _ _ _).
  intros He.
  assert (Hin : e ∈ alert_history m ++ [ev]).
  { destruct (_ <? _)%nat; [|exact He].
    unfold slice_from in He. eapply subseteq_drop; exact He. }
  apply elem_of_app in Hin as [Hin|Hin]; [now left|].
  apply list_elem_of_singleton in Hin as ->. right.
  unfold event_of. subst ev. simpl. tauto.
Qed.

Lemma fire_invoked now m l a v cb e :
  (cb, e) ∈ invoked (fire now m l a v) ->
  (cb, e) ∈ invoked m \/ event_of a e.
Proof.
  unfold fire. cbn [invoked].
  set (ev := mkAlertEvent _ _ _ _ _ _ _).
  intros He. apply elem_of_app in He as [He|He]; [now left|].
  apply list_elem_of_fmap in He as (cb' & Heq & _).
  injection Heq as _ ->. right.
  unfold event_of. subst ev. simpl. tauto.
Qed.

Lemma frame_refl data m : frame data m m.
Proof.
  unfold frame. repeat (split; [reflexivity|]). split; [|split].
  - intros l. destruct (heap m !! l); [|exact I].
    split; [apply same_rule_refl|reflexivity].
  - intros e He. now left.
  - intros cb e He. now left.
Qed.

Lemma frame_step now data m0 m l :
  l ∈ alerts m0 -> frame data m0 m ->
  frame data m0 (check_alert now data m l).1.
Proof.
  intros Hl (Hal & Hcb & Hheap & Hhist & Hinv).
  destruct (heap m !! l) as [a'|] eqn:Ea'.
  - pose proof (Hheap l) as Hrel. rewrite Ea' in Hrel.
    destruct (heap m0 !! l) as [a|] eqn:Ea; [|contradiction].
    destruct Hrel as [Hsame Hkeep].
    destruct (fires data a) eqn:Hf.
    + rewrite <- (same_rule_fires data a a' Hsame) in Hf.
      destruct (check_alert_firing now data m l a' Ea' Hf) as [v ->].
      rewrite (same_rule_fires data a a' Hsame) in Hf.
      cbn [fst]. split; [exact Hal|]. split; [exact Hcb|]. split; [|split].
      * intros l'. unfold fire. cbn [heap].
        destruct (decide (l = l')) as [<-|Hne].
        -- rewrite lookup_insert_eq, Ea.
           split; [now apply same_rule_trigger|congruence].
        -- rewrite lookup_insert_ne by exact Hne. apply Hheap.
      * intros e He. apply fire_event_of in He as [He|He]; [now apply Hhist|].
        right. exists l, a. repeat split; try assumption.
        all: now apply (same_rule_event a a' e Hsame).
      * intros cb e He. apply fire_invoked in He as [He|He]; [now apply Hinv|].
        right. exists l, a. repeat split; try assumption.
        all: now apply (same_rule_event a a' e Hsame).
    + rewrite (check_alert_not_firing now data m l a' Ea').
      * unfold frame. auto.
      * now rewrite (same_rule_fires data a a' Hsame).
  - unfold check_alert. rewrite Ea'. unfold frame. auto.
Qed.

Lemma frame_loop now data m0 ls : forall m triggered,
  (forall l, l ∈ ls -> l ∈ alerts m0) -> frame data m0 m ->
  frame data m0 (check_loop now data ls m triggered).1.
Proof.
  induction ls as [|l ls IH]; intros m triggered Hls Hm; [exact Hm|].
  cbn [check_loop].
  assert (Hstep : frame data m0 (check_alert now data m l).1).
  { apply frame_step; [apply Hls; left|exact Hm]. }
  destruct (check_alert now data m l) as [m1 []]; cbn [fst] in Hstep.
  - apply IH; [intros; apply Hls; now right|exact Hstep].
  - apply IH; [intros; apply Hls; now right|exact Hstep].
  - exact Hstep.
Qed.

(** C10.  After [check_alerts], an alert that is disabled, or whose pair is
    not in the snapshots, or whose metric is not in its pair's data, or
    whose condition does not match, is as it was ([triggered_count] and
    [last_triggered] included); every event the history gained and every
    callback call made is one of an alert that triggers. *)
Theorem check_alerts_frame :
  forall now analytics_data m,
    let m' := (check_alerts now analytics_data m).1 in
    alerts m' = alerts m /\
    (forall l a, heap m !! l = Some a -> not_firing analytics_data a ->
       heap m' !! l = Some a) /\
    (forall e, e ∈ alert_history m' ->
       e ∈ alert_history m \/
       exists l a, l ∈ alerts m /\ heap m !! l = Some a /\
                   fires analytics_data a = true /\ event_of a e) /\
    (forall cb e, (cb, e) ∈ invoked m' ->
       (cb, e) ∈ invoked m \/
       exists l a, l ∈ alerts m /\ heap m !! l = Some a /\
                   fires analytics_data a = true /\ event_of a e).
Proof.
  intros now data m m'.
  assert (H : frame data m m').
  { subst m'. unfold check_alerts. apply frame_loop; [auto|apply frame_refl]. }
  destruct H as (Hal & _ & Hheap & Hhist & Hinv).
  split; [exact Hal|]. split; [|split; assumption].
  intros l a Ha Hnf. specialize (Hheap l). rewrite Ha in Hheap.
  destruct (heap m' !! l) as [a'|]; [|contradiction].
  destruct Hheap as [_ Hkeep]. f_equal. apply Hkeep. now apply not_firing_fires.
Qed.

Example check_alerts_four :
  let m := manager_of four_alerts [7%nat] in
  let r := check_alerts (fun n => 1000 + Z.of_nat n) example_data m in
  r.2 = Some [0%nat] /\
  triggered_count <$> (heap r.1 !! 0%nat) = Some 1 /\
  last_triggered <$> (heap r.1 !! 0%nat) = Some (Some 1000) /\
  (fun l => heap r.1 !! l) <$> [1; 2; 3]%nat
  = (fun l => heap m !! l) <$> [1; 2; 3]%nat /\
  ev_alert_name <$> alert_history r.1 = ["Test Alert"%string] /\
  (fun c => (c.1, ev_alert_name c.2)) <$> invoked r.1 = [(7%nat, "Test Alert"%string)].
Proof.
  cbv zeta. repeat (split; [vm_compute; reflexivity|]).
  vm_compute. reflexivity.
Qed.

(** *** Adding and removing alerts *)

Lemma find_alert_app h n ls ks :
  find_alert h n (ls ++ ks)
  = match find_alert h n ls with
    | Some x => Some x
    | None => find_alert h n ks
    end.
Proof.
  induction ls as [|l ls IH]; [reflexivity|]. simpl.
  destruct (h !! l) as [a|]; [|exact IH].
  destruct (String.eqb (name a) n); [reflexivity|exact IH].
Qed.

Lemma find_alert_insert_fresh h n ls l a :
  l ∉ ls -> find_alert (<[l := a]> h) n ls = find_alert h n ls.
Proof.
  induction ls as [|l0 ls IH]; intros Hl; [reflexivity|]. simpl.
  apply not_elem_of_cons in Hl as [Hne Hl].
  rewrite lookup_insert_ne by exact Hne. rewrite (IH Hl). reflexivity.
Qed.

Lemma find_alert_removed h n ls :
  find_alert h n (List.filter (other_name h n) ls) = None.
Proof.
  induction ls as [|l ls IH]; [reflexivity|]. simpl.
  unfold other_name at 1. destruct (h !! l) as [a|] eqn:E.
  - destruct (String.eqb (name a) n) eqn:En; simpl; [exact IH|].
    rewrite E, En. exact IH.
  - simpl. rewrite E. exact IH.
Qed.

Lemma find_alert_other h n n' ls :
  n' <> n ->
  find_alert h n' (List.filter (other_name h n) ls) = find_alert h n' ls.
Proof.
  intros Hne. induction ls as [|l ls IH]; [reflexivity|]. simpl.
  unfold other_name at 1. destruct (h !! l) as [a|] eqn:E.
  - destruct (String.eqb_spec (name a) n) as [Hn|Hn]; simpl.
    + destruct (String.eqb_spec (name a) n') as [Hn'|_]; [congruence|exact IH].
    + rewrite E. now rewrite IH.
  - simpl. rewrite E. exact IH.
Qed.

(** X4.  [remove_alert] removes every listed alert of that name and no
    other: afterwards no alert of the name is found, the look-up of any
    other name gives what it gave, and the history is untouched. *)
Theorem remove_alert_by_name :
  forall m alert_name,
    let m' := remove_alert m alert_name in
    get_alert m' alert_name = None /\
    (forall other, other <> alert_name -> get_alert m' other = get_alert m other) /\
    (forall l, l ∈ alerts m' <->
       l ∈ alerts m /\
       ~ (exists a, heap m !! l = Some a /\ name a = alert_name)) /\
    alert_history m' = alert_history m /\ callbacks m' = callbacks m.
Proof.
  intros m n m'. subst m'. unfold get_alert, remove_alert.
  cbn [heap alerts alert_history callbacks].
  split; [apply find_alert_removed|]. split; [|split; [|split; reflexivity]].
  - intros other Hne. now apply find_alert_other.
  - intros l. rewrite list_elem_of_In, filter_In, <- list_elem_of_In.
    unfold other_name. split.
    + intros [Hl Hk]. split; [exact Hl|]. intros (a & Ha & Hn).
      rewrite Ha in Hk. apply negb_true_iff in Hk.
      apply String.eqb_neq in Hk. contradiction.
    + intros [Hl Hno]. split; [exact Hl|].
      destruct (heap m !! l) as [a|]; [|reflexivity].
      apply negb_true_iff. apply String.eqb_neq. intros Hn. apply Hno. eauto.
Qed.

(** X5.  Names are no keys: adding an alert never replaces one.  When an
    alert of the same name is already listed, [get_alert] (and with it
    [update_alert]) keeps finding the older one; otherwise it finds the new
    one.  Look-ups of other names are not affected. *)
Theorem add_alert_keeps_older :
  forall m a,
    wf m ->
    let m' := add_new_alert m a in
    alerts m' = alerts m ++ [fresh (dom (heap m))] /\
    heap m' !! fresh (dom (heap m)) = Some a /\
    get_alert m' (name a)
    = match get_alert m (name a) with
      | Some older => Some older
      | None => Some (fresh (dom (heap m)), a)
      end /\
    (forall other, other <> name a -> get_alert m' other = get_alert m other) /\
    wf m'.
Proof.
  intros m a Hwf m'. subst m'. unfold add_new_alert, add_alert, alloc, get_alert.
  cbn [fst snd heap alerts].
  set (l := fresh (dom (heap m))).
  assert (Hnew : heap m !! l = None).
  { apply not_elem_of_dom. apply is_fresh. }
  assert (Hl : l ∉ alerts m).
  { intros Hin. destruct (Hwf l Hin) as [x Hx]. congruence. }
  split; [reflexivity|]. split; [apply lookup_insert_eq|].
  split; [|split].
  - rewrite find_alert_app, (find_alert_insert_fresh _ _ _ _ _ Hl).
    destruct (find_alert (heap m) (name a) (alerts m)); [reflexivity|].
    simpl. rewrite lookup_insert_eq, String.eqb_refl. reflexivity.
  - intros other Hne.
    rewrite find_alert_app, (find_alert_insert_fresh _ _ _ _ _ Hl).
    destruct (find_alert (heap m) other (alerts m)); [reflexivity|].
    simpl. rewrite lookup_insert_eq.
    destruct (String.eqb_spec (name a) other); [congruence|reflexivity].
  - intros l' Hl'. cbn [heap alerts] in *.
    apply elem_of_app in Hl' as [Hl'|Hl'].
    + destruct (decide (l = l')) as [<-|Hne]; [contradiction|].
      rewrite lookup_insert_ne by exact Hne. now apply Hwf.
    + apply list_elem_of_singleton in Hl' as ->. rewrite lookup_insert_eq. eauto.
Qed.

Lemma add_alert_keeps_older_witness :
  wf (manager_of [test_alert] []) /\
  get_alert (add_new_alert (manager_of [test_alert] [])
               (new_alert "Test Alert" "less" "spread" 0 "btcusdt_ethusdt" true))
            "Test Alert"
  = Some (0%nat, test_alert).
Proof.
  assert (Hwf : wf (manager_of [test_alert] [])).
  { intros l Hl. apply list_elem_of_singleton in Hl as ->. vm_compute. eauto. }
  split; [exact Hwf|].
  destruct (add_alert_keeps_older (manager_of [test_alert] [])
              (new_alert "Test Alert" "less" "spread" 0 "btcusdt_ethusdt" true) Hwf)
    as (_ & _ & Hget & _).
  cbv zeta in Hget. refine (eq_trans Hget _). vm_compute. reflexivity.
Defined.

(** *** The rounds of [check_alerts], case by case *)

Lemma same_rule_raises data a a' :
  same_rule a a' -> raises data a' = raises data a.
Proof.
  destruct a, a'. unfold same_rule. simpl.
  intros (-> & -> & -> & -> & -> & ->). reflexivity.
Qed.

Lemma check_alert_cases now data m l :
  (fires_at data (heap m) l = true /\ raises_at data (heap m) l = false /\
   exists a v, heap m !! l = Some a /\
               check_alert now data m l = (fire now m l a v, Fired)) \/
  (fires_at data (heap m) l = false /\ raises_at data (heap m) l = false /\
   check_alert now data m l = (m, Skipped)) \/
  (fires_at data (heap m) l = false /\ raises_at data (heap m) l = true /\
   check_alert now data m l = (m, Raised)).
Proof.
  unfold fires_at, raises_at, check_alert, fires, raises.
  destruct (heap m !! l) as [a|]; [|right; left; auto].
  destruct (enabled a); [|right; left; auto]. cbn [negb andb].
  destruct (data !! symbol_pair a) as [pd|]; [|right; left; auto].
  destruct (pd !! metric a) as [v|]; [|right; left; auto].
  destruct v;
    try (destruct (check_py a _) as [[|]|];
         [left; repeat split; eauto
         |right; left; auto
         |right; right; auto]).
  right; left; auto.
Qed.

Lemma fire_heap_status now data m l a v :
  heap m !! l = Some a ->
  forall l', fires_at data (heap (fire now m l a v)) l' = fires_at data (heap m) l' /\
             raises_at data (heap (fire now m l a v)) l' = raises_at data (heap m) l'.
Proof.
  intros Ha l'. unfold fire, fires_at, raises_at. cbn [heap].
  destruct (decide (l = l')) as [<-|Hne].
  - rewrite lookup_insert_eq, Ha.
    pose proof (same_rule_trigger a a (now (clock m)) (same_rule_refl a)) as Hs.
    split; [now apply same_rule_fires|now apply same_rule_raises].
  - rewrite lookup_insert_ne by exact Hne. split; reflexivity.
Qed.

(** *** What a call returns and counts *)

Lemma check_loop_triggered now data ls : forall m acc m' tr,
  check_loop now data ls m acc = (m', Some tr) ->
  tr = acc ++ filter (fun l => fires_at data (heap m) l = true) ls /\
  forall l a, heap m !! l = Some a ->
    exists a', heap m' !! l = Some a' /\
      triggered_count a'
      = triggered_count a
        + Z.of_nat (length (filter (fun x => x = l)
                      (filter (fun l => fires_at data (heap m) l = true) ls))).
Proof.
  induction ls as [|l0 ls IH]; intros m acc m' tr Hrun.
  - injection Hrun as <- <-. rewrite app_nil_r. split; [reflexivity|].
    intros l a Ha. exists a. split; [exact Ha|]. simpl. lia.
  - cbn [check_loop] in Hrun.
    destruct (check_alert_cases now data m l0)
      as [(Hf & _ & a0 & v & Ha0 & Hstep)|[(Hf & _ & Hstep)|(_ & _ & Hstep)]];
      rewrite Hstep in Hrun.
    + destruct (IH _ _ _ _ Hrun) as [Htr Hcount].
      assert (Hsame : filter (fun l => fires_at data (heap (fire now m l0 a0 v)) l = true) ls
                      = filter (fun l => fires_at data (heap m) l = true) ls).
      { apply list_filter_iff. intros x.
        now rewrite (proj1 (fire_heap_status now data m l0 a0 v Ha0 x)). }
      rewrite Hsame in Htr, Hcount.
      rewrite filter_cons_True by exact Hf. split.
      * rewrite Htr, <- app_assoc. reflexivity.
      * intros l a Ha. destruct (decide (l0 = l)) as [->|Hne].
        -- rewrite Ha in Ha0. injection Ha0 as <-.
           destruct (Hcount l (trigger (now (clock m)) a)) as (a' & Ha' & Hc).
           { unfold fire. cbn [heap]. apply lookup_insert_eq. }
           exists a'. split; [exact Ha'|]. rewrite Hc.
           rewrite filter_cons_True by reflexivity. cbn [trigger triggered_count length].
           lia.
        -- destruct (Hcount l a) as (a' & Ha' & Hc).
           { unfold fire. cbn [heap]. now rewrite lookup_insert_ne. }
           exists a'. split; [exact Ha'|]. rewrite Hc.
           rewrite filter_cons_False by exact Hne. reflexivity.
    + destruct (IH _ _ _ _ Hrun) as [Htr Hcount].
      rewrite filter_cons_False by congruence. split; [exact Htr|exact Hcount].
    + discriminate.
Qed.

(** X6.  When [check_alerts] returns, it returns the listed alerts that
    trigger, in list order, and the [triggered_count] of every alert has
    grown by the number of times the alert is in that list: by one for an
    alert that triggers and is listed once, by nothing for the others. *)
Theorem check_alerts_returns_triggered :
  forall now analytics_data m triggered,
    (check_alerts now analytics_data m).2 = Some triggered ->
    triggered = filter (fun l => fires_at analytics_data (heap m) l = true) (alerts m) /\
    forall l a, heap m !! l = Some a ->
      exists a', heap (check_alerts now analytics_data m).1 !! l = Some a' /\
        triggered_count a'
        = triggered_count a + Z.of_nat (length (filter (fun x => x = l) triggered)).
Proof.
  intros now data m tr Hrun. unfold check_alerts in *.
  destruct (check_loop now data (alerts m) m []) as [m' r] eqn:E.
  cbn [fst snd] in *. subst r.
  destruct (check_loop_triggered now data _ _ _ _ _ E) as [Htr Hcount].
  cbn [app] in Htr. split; [exact Htr|]. rewrite Htr. exact Hcount.
Qed.

Lemma check_alerts_returns_triggered_witness :
  (check_alerts (fun n => 1000 + Z.of_nat n) example_data
     (manager_of four_alerts [])).2 = Some [0%nat] /\
  [0%nat] = filter (fun l => fires_at example_data
                               (heap (manager_of four_alerts [])) l = true)
                   (alerts (manager_of four_alerts [])).
Proof.
  assert (H : (check_alerts (fun n => 1000 + Z.of_nat n) example_data
                 (manager_of four_alerts [])).2 = Some [0%nat]).
  { vm_compute. reflexivity. }
  split; [exact H|].
  exact (proj1 (check_alerts_returns_triggered _ _ _ _ H)).
Defined.

Lemma check_loop_raises now data ls : forall m acc,
  (check_loop now data ls m acc).2 = None <->
  exists l, l ∈ ls /\ raises_at data (heap m) l = true.
Proof.
  induction ls as [|l0 ls IH]; intros m acc.
  - simpl. split; [discriminate|]. intros (l & Hl & _). inversion Hl.
  - cbn [check_loop].
    destruct (check_alert_cases now data m l0)
      as [(_ & Hr & a0 & v & Ha0 & Hstep)|[(_ & Hr & Hstep)|(_ & Hr & Hstep)]];
      rewrite Hstep.
    + rewrite IH. split.
      * intros (l & Hl & Hraise). exists l. split; [now right|].
        now rewrite <- (proj2 (fire_heap_status now data m l0 a0 v Ha0 l)).
      * intros (l & Hl & Hraise). apply elem_of_cons in Hl as [->|Hl]; [congruence|].
        exists l. split; [exact Hl|].
        now rewrite (proj2 (fire_heap_status now data m l0 a0 v Ha0 l)).
    + rewrite IH. split.
      * intros (l & Hl & Hraise). exists l. split; [now right|exact Hraise].
      * intros (l & Hl & Hraise). apply elem_of_cons in Hl as [->|Hl]; [congruence|].
        eauto.
    + cbn [snd]. split; [|reflexivity]. intros _. exists l0. split; [left|exact Hr].
Qed.

(** What makes the check of one alert raise. *)
Lemma raises_spec data a :
  raises data a = true <->
  enabled a = true /\
  exists pair_data v,
    data !! symbol_pair a = Some pair_data /\
    pair_data !! metric a = Some v /\ v <> PNone /\
    ((as_number v = None /\ known_condition (condition a) = true) \/
     (condition a = "equal"%string /\
      exists z, v = PInt z /\ float_overflow <= Z.abs z)).
Proof.
  unfold raises, check_py. split.
  - intros H. apply andb_true_iff in H as [He H]. split; [exact He|].
    destruct (data !! symbol_pair a) as [pd|] eqn:Epd; [|discriminate].
    destruct (pd !! metric a) as [v|] eqn:Ev; [|discriminate].
    exists pd, v. split; [reflexivity|]. split; [exact Ev|]. clear Ev.
    destruct v; try discriminate H; (split; [discriminate|]);
      cbn [as_number overflows] in H; rewrite He in H; cbn [negb andb] in H.
    + left. split; [reflexivity|].
      destruct (known_condition (condition a)); [reflexivity|discriminate].
    + rewrite andb_false_r in H. discriminate.
    + right.
      destruct (String.eqb_spec (condition a) "equal") as [Hc|]; [|discriminate].
      split; [exact Hc|]. exists z. split; [reflexivity|].
      cbn [andb] in H.
      destruct (Z.leb_spec float_overflow (Z.abs z)); [assumption|discriminate].
    + rewrite andb_false_r in H. discriminate.
    + left. split; [reflexivity|].
      destruct (known_condition (condition a)); [reflexivity|discriminate].
    + left. split; [reflexivity|].
      destruct (known_condition (condition a)); [reflexivity|discriminate].
  - intros (He & pd & v & -> & -> & Hv & Hcase). rewrite He. cbn [negb andb].
    destruct Hcase as [[Hn Hk]|(Hc & z & -> & Hz)].
    + destruct v; try discriminate Hn; try (now rewrite Hk). congruence.
    + cbn [as_number overflows]. rewrite Hc. cbn [String.eqb Ascii.eqb Bool.eqb andb].
      destruct (Z.leb_spec float_overflow (Z.abs z)); [reflexivity|lia].
Qed.

(** X7.  [check_alerts] raises exactly when some listed alert is enabled,
    its metric names a value of its pair's snapshot that is not None, and
    either the alert has one of the five known conditions and the value is
    not a number (TypeError from the comparison), or the condition is
    'equal' and the value is an int too large for a float (OverflowError
    from the subtraction). *)
Theorem check_alerts_raises_iff :
  forall now analytics_data m,
    (check_alerts now analytics_data m).2 = None <->
    exists l a pair_data v,
      l ∈ alerts m /\ heap m !! l = Some a /\ enabled a = true /\
      analytics_data !! symbol_pair a = Some pair_data /\
      pair_data !! metric a = Some v /\ v <> PNone /\
      ((as_number v = None /\ known_condition (condition a) = true) \/
       (condition a = "equal"%string /\
        exists z, v = PInt z /\ float_overflow <= Z.abs z)).
Proof.
  intros now data m. unfold check_alerts. rewrite check_loop_raises. split.
  - intros (l & Hl & Hr). unfold raises_at in Hr.
    destruct (heap m !! l) as [a|] eqn:Ea; [|discriminate].
    apply raises_spec in Hr as (He & pd & v & Hpd & Hv & Hn & Hcase).
    exists l, a, pd, v. auto 10.
  - intros (l & a & pd & v & Hl & Ea & He & Hpd & Hv & Hn & Hcase).
    exists l. split; [exact Hl|]. unfold raises_at. rewrite Ea.
    apply raises_spec. split; [exact He|]. exists pd, v. auto.
Qed.

Example check_alerts_raises_on_dict :
  let m := manager_of
             [ new_alert "Spread" "greater" "spread" 1 "btcusdt_ethusdt" true;
               test_alert ] [] in
  check_alerts (fun n => Z.of_nat n) example_data m = (m, None).
Proof. vm_compute. reflexivity. Qed.

(** An int of 1025 bits: the subtraction of 'equal' raises on it, the
    comparison of 'greater' does not. *)
Example check_alerts_raises_on_large_int :
  let data : gmap string (gmap string pyval) :=
    {[ "btcusdt_ethusdt"%string := {[ "z_score"%string := PInt (2 ^ 1024) ]} ]} in
  let equal := manager_of
                 [ new_alert "Equal" "equal" "z_score" 2 "btcusdt_ethusdt" true ] [] in
  (check_alerts (fun n => Z.of_nat n) data equal).2 = None /\
  (check_alerts (fun n => Z.of_nat n) data (manager_of [test_alert] [])).2
  = Some [0%nat].
Proof. split; vm_compute; reflexivity. Qed.

(** *** The bounded history *)

Lemma fire_history now m l a v :
  (1 <= max_history m)%nat ->
  exists e, alert_history (fire now m l a v)
            = keep_last (max_history m) (alert_history m ++ [e]).
Proof.
  intros Hmax. unfold fire. cbn [alert_history].
  set (e := mkAlertEvent _ _ _ _ _ _ _). exists e.
  destruct (Nat.ltb_spec (max_history m) (length (alert_history m ++ [e]))) as [Hlt|Hge].
  - now apply slice_from_last.
  - now rewrite keep_last_short.
Qed.

Lemma check_loop_history now data ls : forall m acc,
  (1 <= max_history m)%nat ->
  (length (alert_history m) <= max_history m)%nat ->
  let m' := (check_loop now data ls m acc).1 in
  max_history m' = max_history m /\
  exists events,
    alert_history m' = keep_last (max_history m) (alert_history m ++ events).
Proof.
  induction ls as [|l0 ls IH]; intros m acc Hmax Hlen; cbn [check_loop].
  - split; [reflexivity|]. exists []. rewrite app_nil_r. now rewrite keep_last_short.
  - destruct (check_alert_cases now data m l0)
      as [(_ & _ & a0 & v & Ha0 & Hstep)|[(_ & _ & Hstep)|(_ & _ & Hstep)]];
      rewrite Hstep.
    + destruct (fire_history now m l0 a0 v Hmax) as [e He].
      assert (Hmax' : max_history (fire now m l0 a0 v) = max_history m) by reflexivity.
      destruct (IH (fire now m l0 a0 v) (acc ++ [l0])) as [Hm (evs & Hevs)].
      * rewrite Hmax'. exact Hmax.
      * rewrite Hmax', He, keep_last_length. lia.
      * cbv zeta in *. split; [now rewrite Hm|].
        exists (e :: evs). rewrite Hevs, Hmax', He, keep_last_app, <- app_assoc.
        reflexivity.
    + now apply IH.
    + cbn [fst]. split; [reflexivity|]. exists [].
      rewrite app_nil_r. now rewrite keep_last_short.
Qed.

(** X8.  The history is a bounded queue: if it held at most [max_history]
    events (100 from [__init__]) before [check_alerts], it does afterwards,
    and it is then the last [max_history] of the old events followed by the
    new ones, so the oldest events are the ones dropped. *)
Theorem alert_history_bounded :
  forall now analytics_data m,
    (1 <= max_history m)%nat ->
    (length (alert_history m) <= max_history m)%nat ->
    let m' := (check_alerts now analytics_data m).1 in
    max_history m' = max_history m /\
    (length (alert_history m') <= max_history m)%nat /\
    exists events,
      alert_history m' = keep_last (max_history m) (alert_history m ++ events).
Proof.
  intros now data m Hmax Hlen m'. subst m'. unfold check_alerts.
  destruct (check_loop_history now data (alerts m) m [] Hmax Hlen) as [Hm (evs & Hevs)].
  split; [exact Hm|]. split; [|eauto].
  rewrite Hevs, keep_last_length. lia.
Qed.

Lemma alert_history_bounded_witness :
  (1 <= max_history (manager_of four_alerts []))%nat /\
  (length (alert_history (manager_of four_alerts [])) <= 100)%nat /\
  (length (alert_history
             (check_alerts (fun n => Z.of_nat n) example_data
                (manager_of four_alerts [])).1) <= 100)%nat.
Proof.
  assert (H1 : (1 <= max_history (manager_of four_alerts []))%nat)
    by (simpl; lia).
  assert (H2 : (length (alert_history (manager_of four_alerts []))
                <= max_history (manager_of four_alerts []))%nat)
    by (simpl; lia).
  split; [exact H1|]. split; [exact H2|].
  exact (proj1 (proj2 (alert_history_bounded (fun n => Z.of_nat n) example_data
                         (manager_of four_alerts []) H1 H2))).
Defined.

(** *** Disabling an alert *)

Lemma find_alert_Some h n ls l a :
  find_alert h n ls = Some (l, a) -> l ∈ ls /\ h !! l = Some a /\ name a = n.
Proof.
  induction ls as [|l0 ls IH]; [discriminate|]. simpl.
  destruct (h !! l0) as [a0|] eqn:E.
  - destruct (String.eqb_spec (name a0) n) as [Hn|_].
    + intros H. injection H as <- <-. split; [left|auto].
    + intros H. destruct (IH H) as (? & ? & ?). split; [now right|auto].
  - intros H. destruct (IH H) as (? & ? & ?). split; [now right|auto].
Qed.

(** X9.  After [update_alert(name, enabled=False)] the alert found under the
    name is disabled and nothing else of it has changed; a following
    [check_alerts] leaves it untouched and does not return it, whatever the
    snapshots hold. *)
Theorem disabled_alert_stays_silent :
  forall m alert_name l a now analytics_data,
    get_alert m alert_name = Some (l, a) ->
    exists m1 a1,
      update_alert m alert_name [("enabled"%string, PBool false)] = Some m1 /\
      heap m1 !! l = Some a1 /\
      enabled a1 = false /\
      name a1 = name a /\ condition a1 = condition a /\ metric a1 = metric a /\
      threshold a1 = threshold a /\ symbol_pair a1 = symbol_pair a /\
      triggered_count a1 = triggered_count a /\
      last_triggered a1 = last_triggered a /\
      heap (check_alerts now analytics_data m1).1 !! l = Some a1 /\
      forall triggered,
        (check_alerts now analytics_data m1).2 = Some triggered -> l ∉ triggered.
Proof.
  intros m n l a now data Hget.
  unfold update_alert.
  replace (names_parameter [("enabled"%string, PBool false)]) with false
    by reflexivity.
  rewrite Hget. cbn [apply_kwargs is_data_attr setattr].
  replace (is_data_attr "enabled") with true by reflexivity. cbn [setattr].
  eexists _, _. split; [reflexivity|]. cbn [heap].
  split; [apply lookup_insert_eq|]. cbn [enabled name condition metric threshold
    symbol_pair triggered_count last_triggered].
  repeat (split; [reflexivity|]).
  set (a1 := mkAlert _ _ _ _ _ false _ _).
  set (m1 := mkAlertManager _ _ _ _ _ _ _).
  assert (Ha1 : heap m1 !! l = Some a1) by apply lookup_insert_eq.
  assert (Hquiet : fires data a1 = false) by reflexivity.
  split.
  - pose proof (frame_loop now data m1 (alerts m1) m1 []
                  (fun _ H => H) (frame_refl data m1)) as (_ & _ & Hheap & _).
    specialize (Hheap l). rewrite Ha1 in Hheap.
    unfold check_alerts.
    destruct (heap (check_loop now data (alerts m1) m1 []).1 !! l) as [a'|];
      [|contradiction].
    destruct Hheap as [_ Hkeep]. now rewrite (Hkeep Hquiet).
  - intros tr Htr. unfold check_alerts in Htr.
    destruct (check_loop now data (alerts m1) m1 []) as [m' r] eqn:E.
    cbn [snd] in Htr. subst r.
    destruct (check_loop_triggered now data _ _ _ _ _ E) as [-> _].
    cbn [app]. rewrite list_elem_of_filter. intros [Hf _].
    unfold fires_at in Hf. rewrite Ha1 in Hf. congruence.
Qed.

Lemma disabled_alert_stays_silent_witness :
  get_alert (manager_of four_alerts []) "Test Alert" = Some (0%nat, test_alert) /\
  exists m1 a1,
    update_alert (manager_of four_alerts []) "Test Alert"
      [("enabled"%string, PBool false)] = Some m1 /\
    heap m1 !! 0%nat = Some a1 /\ enabled a1 = false.
Proof.
  assert (H : get_alert (manager_of four_alerts []) "Test Alert"
              = Some (0%nat, test_alert)) by (vm_compute; reflexivity).
  split; [exact H|].
  destruct (disabled_alert_stays_silent _ _ _ _ (fun n => Z.of_nat n) example_data H)
    as (m1 & a1 & Hu & Hh & He & _).
  exists m1, a1. auto.
Defined.

(** *** The preset alerts *)





End AlertsSpec.

Module AlertObjectsSpec.
Import Py Alerts AlertObjects.

(** *** [hasattr] and [setattr] *)




Lemma setattr_unprotected o key value :
  protected key = false -> setattr o key value = Stored (<[key := value]> o).
Proof.
  unfold protected, setattr. intros H. apply bool_decide_eq_false in H.
  destruct (String.eqb_spec key "__weakref__") as [->|_];
    [exfalso; apply H; compute_done|].
  destruct (String.eqb_spec key "__class__") as [->|_];
    [exfalso; apply H; compute_done|].
  destruct (String.eqb_spec key "__dict__") as [->|_];
    [exfalso; apply H; compute_done|].
  reflexivity.
Qed.


(** *** The loop over the request *)






(** An int for the threshold, 0 for [enabled], a float for the count, a
    value over a method, a special attribute: each is carried out.  At
    [__class__] the call raises, with the threshold already set and
    [enabled] not yet.  With [alert_name] passed as a keyword the call
    raises at once. *)
Example update_alert_untyped_request :
  let m := manager_of (Alerts.manager_of [test_alert] []) in
  let r := update_alert some_inherited m "Test Alert"
             [ ("threshold", PInt 3); ("enabled", PInt 0);
               ("triggered_count", PFloat (3 # 2)); ("check", PInt 1);
               ("__doc__", PStr "an alert"); ("__str__", PNone) ]%string in
  let r' := update_alert some_inherited m "Test Alert"
              [ ("threshold", PFloat 3); ("__class__", PInt 5);
                ("enabled", PBool false) ]%string in
  r.2 = Returns /\
  (fun key => heap r.1 !! 0%nat ≫= (.!! key))
    <$> [ "threshold"; "enabled"; "triggered_count"; "check"; "__doc__";
          "__str__" ]%string
  = [ Some (PInt 3); Some (PInt 0); Some (PFloat (3 # 2)); Some (PInt 1);
      Some (PStr "an alert"); None ] /\
  r'.2 = Raises /\
  (fun key => heap r'.1 !! 0%nat ≫= (.!! key)) <$> [ "threshold"; "enabled" ]%string
  = [ Some (PFloat 3); Some (PBool true) ] /\
  update_alert some_inherited m "Test Alert"
    [ ("threshold", PFloat 3); ("alert_name", PStr "Other") ]%string
  = (m, Raises).
Proof. cbv zeta. repeat split; vm_compute; reflexivity. Qed.

(** *** The typed requests are requests among the others *)

Lemma data_attr_cases key :
  is_data_attr key = true ->
  key = "name"%string \/ key = "condition"%string \/ key = "metric"%string \/
  key = "threshold"%string \/ key = "symbol_pair"%string \/
  key = "enabled"%string \/ key = "triggered_count"%string \/
  key = "last_triggered"%string.
Proof.
  unfold is_data_attr, data_attrs. intros H. apply bool_decide_eq_true in H.
  repeat (apply elem_of_cons in H as [H|H]; [tauto|]). inversion H.
Qed.

(** The instance dictionary holds the eight data attributes and nothing
    else. *)
Lemma object_of_data a key :
  is_data_attr key = true -> object_of a !! key = getattr a key.
Proof.
  intros H. apply data_attr_cases in H.
  destruct H as [->|[->|[->|[->|[->|[->|[->| ->]]]]]]]; reflexivity.
Qed.

Lemma object_of_other a key :
  is_data_attr key = false -> object_of a !! key = None.
Proof.
  unfold is_data_attr, data_attrs, object_of. intros H.
  apply bool_decide_eq_false in H.
  rewrite !not_elem_of_cons in H.
  destruct H as (H1 & H2 & H3 & H4 & H5 & H6 & H7 & H8 & _).
  repeat (rewrite list_to_map_cons, lookup_insert_ne by congruence).
  apply lookup_empty.
Qed.

Lemma find_alert_typed h alert_name ls :
  find_alert (object_of <$> h) alert_name ls
  = match Alerts.find_alert h alert_name ls with
    | Some (l, a) => Found l (object_of a)
    | None => NotFound
    end.
Proof.
  induction ls as [|l ls IH]; [reflexivity|].
  cbn [find_alert Alerts.find_alert]. rewrite lookup_fmap.
  destruct (h !! l) as [a|]; cbn [fmap option_fmap option_map]; [|exact IH].
  rewrite (object_of_data a "name") by reflexivity. cbn [getattr name_is].
  destruct (String.eqb (name a) alert_name); [reflexivity|exact IH].
Qed.

(** A typed assignment is the assignment of the interpreter. *)
Lemma setattr_typed a key value a' :
  is_data_attr key = true ->
  Alerts.setattr a key value = Some a' ->
  <[key := value]> (object_of a) = object_of a'.
Proof.
  intros Ekey Hset. apply map_eq. intros k.
  apply data_attr_cases in Ekey.
  destruct (decide (k = key)) as [->|Hne].
  - rewrite lookup_insert_eq.
    destruct Ekey as [->|[->|[->|[->|[->|[->|[->| ->]]]]]]];
      destruct value; try discriminate Hset; injection Hset as <-; reflexivity.
  - rewrite lookup_insert_ne by congruence.
    destruct (is_data_attr k) eqn:Ek.
    + rewrite !object_of_data by exact Ek.
      apply data_attr_cases in Ek.
      destruct Ekey as [->|[->|[->|[->|[->|[->|[->| ->]]]]]]];
        destruct value; try discriminate Hset; injection Hset as <-;
        destruct Ek as [->|[->|[->|[->|[->|[->|[->| ->]]]]]]];
        try reflexivity; congruence.
    + now rewrite !object_of_other by exact Ek.
Qed.

Lemma data_attr_unprotected key :
  is_data_attr key = true -> protected key = false.
Proof.
  intros H. apply data_attr_cases in H.
  destruct H as [->|[->|[->|[->|[->|[->|[->| ->]]]]]]]; reflexivity.
Qed.

Lemma class_attr_typed key :
  key ∈ class_attrs -> Alerts.is_class_attr key = true.
Proof.
  unfold class_attrs. intros H.
  repeat (apply elem_of_cons in H as [->|H]; [reflexivity|]). inversion H.
Qed.

Section Typed.

Variable inherited : string -> bool.

(** The names that [object] defines all start with two underscores. *)
Hypothesis inherited_special :
  forall key, inherited key = true -> String.prefix "__" key = true.

Lemma hasattr_typed a key :
  hasattr inherited (object_of a) key
  = is_data_attr key || bool_decide (key ∈ class_attrs) || inherited key.
Proof.
  unfold hasattr. f_equal. f_equal.
  destruct (is_data_attr key) eqn:Ek.
  - apply bool_decide_eq_true_2. rewrite object_of_data by exact Ek.
    apply data_attr_cases in Ek.
    destruct Ek as [->|[->|[->|[->|[->|[->|[->| ->]]]]]]]; simpl; eauto.
  - apply bool_decide_eq_false_2. rewrite object_of_other by exact Ek.
    intros [? ?]. discriminate.
Qed.

Lemma apply_kwargs_typed kwargs : forall a a',
  Alerts.apply_kwargs a kwargs = Some a' ->
  apply_kwargs inherited (object_of a) kwargs = (object_of a', Returns).
Proof.
  induction kwargs as [|[k v] rest IH]; intros a a' Happ.
  - injection Happ as <-. reflexivity.
  - cbn [Alerts.apply_kwargs apply_kwargs] in *. rewrite hasattr_typed.
    destruct (is_data_attr k) eqn:Ek.
    + destruct (Alerts.setattr a k v) as [a1|] eqn:Eset; [|discriminate].
      cbn [orb]. rewrite setattr_unprotected by now apply data_attr_unprotected.
      rewrite (setattr_typed a k v a1 Ek Eset). now apply IH.
    + destruct (Alerts.is_class_attr k) eqn:Ec; [discriminate|].
      assert (Hc : bool_decide (k ∈ class_attrs) = false).
      { apply bool_decide_eq_false_2. intros Hin.
        apply class_attr_typed in Hin. congruence. }
      assert (Hi : inherited k = false).
      { destruct (inherited k) eqn:Ei; [|reflexivity].
        apply inherited_special in Ei. unfold Alerts.is_class_attr in Ec.
        rewrite Ei, orb_true_r in Ec. discriminate. }
      rewrite Hc, Hi. cbn [orb]. now apply IH.
Qed.

(** What [Alerts.update_alert] answers for a typed request is what
    [update_alert] does on the objects. *)
Lemma update_alert_typed m alert_name kwargs m' :
  Alerts.update_alert m alert_name kwargs = Some m' ->
  update_alert inherited (manager_of m) alert_name kwargs
  = (manager_of m', Returns).
Proof.
  unfold Alerts.update_alert, update_alert, get_alert, Alerts.get_alert.
  destruct (names_parameter kwargs); [discriminate|].
  cbn [manager_of heap alerts]. rewrite find_alert_typed.
  destruct (Alerts.find_alert (Alerts.heap m) alert_name (Alerts.alerts m))
    as [[l a]|].
  - destruct (Alerts.apply_kwargs a kwargs) as [a'|] eqn:Happ; [|discriminate].
    intros H. injection H as <-.
    rewrite (apply_kwargs_typed kwargs a a' Happ). cbn [fst snd].
    unfold manager_of. cbn [Alerts.heap Alerts.alerts Alerts.alert_history
                            Alerts.callbacks alert_history callbacks].
    rewrite fmap_insert. reflexivity.
  - intros H. injection H as <-. reflexivity.
Qed.

End Typed.

End AlertObjectsSpec.
